(** * Research-Auto: the structured-output parser of [llm_gemini.py]

    A shallow embedding of [GeminiClient._parse_structured_output],
    [GeminiClient.summarize_abstract], [GeminiClient._get_empty_insight] and
    [GeminiClient._build_summarization_prompt], with the properties the
    specification states about them, and of the feed client
    ([arxiv_client.py]), the filters ([filters.py]) and the selection step
    of [main.py].

    Conventions of the embedding:
    - a Python [str] is the list of its Unicode code points;
    - a Python call that may raise returns an [outcome]: [Ok v] for a normal
      return, [Raise msg] for an exception whose [str(e)] is [msg];
    - a call into a library returns a [library_call], which keeps apart the
      exceptions a handler [except Exception] catches and those it lets
      through;
    - the mutable locals of the parser loop ([result], [current_section],
      [current_text]) are one record threaded through the loop body. *)

From Stdlib Require Import Ascii String.
From Stdlib Require Import List NArith ZArith Bool Arith Lia.
From Stdlib Require Import DecimalString Permutation Sorted.
Import ListNotations.
Local Open Scope list_scope.

(* ------------------------------------------------------------------ *)
(** * Python string and list primitives *)
(* ------------------------------------------------------------------ *)

Module PyStr.

(** A character is a Unicode code point. *)
Definition char := N.
Definition str := list char.

(** A string literal of the source, as code points. *)
Definition lit (s : string) : str := map N_of_ascii (list_ascii_of_string s).
Arguments lit s%_string.

Definition LF : char := 10%N.

(** Truthiness of a [str] or a [list]: non-empty. *)
Definition truthy {A : Type} (l : list A) : bool :=
  match l with [] => false | _ :: _ => true end.

(** The characters [str.strip()] removes: [str.isspace] of CPython. *)
Definition whitespace : list char :=
  [9; 10; 11; 12; 13; 28; 29; 30; 31; 32; 133; 160; 5760;
   8192; 8193; 8194; 8195; 8196; 8197; 8198; 8199; 8200; 8201; 8202;
   8232; 8233; 8239; 8287; 12288]%N.

Definition mem (c : char) (chars : str) : bool := existsb (N.eqb c) chars.

Definition isspace (c : char) : bool := mem c whitespace.

(** Drop the longest prefix of characters satisfying [p]. *)
Fixpoint lstrip_by (p : char -> bool) (s : str) : str :=
  match s with
  | [] => []
  | c :: t => if p c then lstrip_by p t else s
  end.

Definition rstrip_by (p : char -> bool) (s : str) : str :=
  rev (lstrip_by p (rev s)).

(** [s.strip()] *)
Definition strip (s : str) : str := rstrip_by isspace (lstrip_by isspace s).

(** [s.lstrip(chars)] *)
Definition lstrip (chars : str) (s : str) : str :=
  lstrip_by (fun c => mem c chars) s.

(** [s.startswith(prefix)] *)
Fixpoint startswith (prefix s : str) : bool :=
  match prefix, s with
  | [], _ => true
  | _ :: _, [] => false
  | a :: p', b :: s' => N.eqb a b && startswith p' s'
  end.

(** [sub in s] *)
Fixpoint contains (sub s : str) : bool :=
  startswith sub s ||
  match s with
  | [] => false
  | _ :: t => contains sub t
  end.

(** [s.split(sep, maxsplit)] for a non-empty [sep]: the text is cut at the
    leftmost occurrences of [sep], scanning left to right; [maxsplit = None]
    is Python's default (no limit).  [skip] counts the characters of a
    separator just matched that are still to be passed over. *)
Fixpoint split_from (sep : str) (maxsplit : option nat) (skip : nat) (s : str)
  : list str :=
  match s with
  | [] => [[]]
  | c :: t =>
      match skip with
      | S k => split_from sep maxsplit k t
      | O =>
          let may_cut := match maxsplit with Some O => false | _ => true end in
          if may_cut && startswith sep s
          then [] :: split_from sep (option_map Nat.pred maxsplit)
                                (Nat.pred (List.length sep)) t
          else match split_from sep maxsplit 0 t with
               | piece :: rest => (c :: piece) :: rest
               | [] => [[c]]
               end
      end
  end.

(** [s.split(sep)] *)
Definition split (sep s : str) : list str := split_from sep None 0 s.

(** [s.split(sep, maxsplit)] *)
Definition split_max (sep : str) (maxsplit : nat) (s : str) : list str :=
  split_from sep (Some maxsplit) 0 s.

(** [sep.join(parts)] *)
Fixpoint join (sep : str) (parts : list str) : str :=
  match parts with
  | [] => []
  | [p] => p
  | p :: rest => p ++ sep ++ join sep rest
  end.

End PyStr.

Import PyStr.

(* ------------------------------------------------------------------ *)
(** * Exceptions as data *)
(* ------------------------------------------------------------------ *)

(** The outcome of a Python call: a value, or an exception with its
    [str(e)]. *)
Inductive outcome (A : Type) : Type :=
| Ok (a : A)
| Raise (msg : str).
Arguments Ok {A} a.
Arguments Raise {A} msg.

Definition bind {A B : Type} (c : outcome A) (k : A -> outcome B) : outcome B :=
  match c with
  | Ok a => k a
  | Raise msg => Raise msg
  end.

Notation "x <- c ;; k" := (bind c (fun x => k))
  (at level 61, c at next level, right associativity).

(** [l[i]]: raises [IndexError] when [i] is out of range. *)
Definition index {A : Type} (l : list A) (i : nat) : outcome A :=
  match nth_error l i with
  | Some x => Ok x
  | None => Raise (lit "list index out of range")
  end.

(** The result of a call into a library, by what a handler
    [except Exception] makes of it: a value, an exception of class
    [Exception], which the handler catches, or one of the other
    [BaseException] classes ([KeyboardInterrupt], [SystemExit],
    [GeneratorExit]), which passes the handler and leaves the function.
    The string is [str(e)]. *)
Inductive library_call (A : Type) : Type :=
| Returns (a : A)
| Raises_exception (e : str)
| Raises_base_exception (e : str).
Arguments Returns {A} a.
Arguments Raises_exception {A} e.
Arguments Raises_base_exception {A} e.

(* ------------------------------------------------------------------ *)
(** * The insight record and the parser *)
(* ------------------------------------------------------------------ *)

(** The dictionary every path of the client returns; its five keys are the
    record's fields. *)
Record InsightRecord : Type := mkInsight {
  insight_summary : str;
  key_innovations : list str;
  novel_methods : list str;
  potential_applications : list str;
  extracted_keywords : list str
}.

Definition set_insight_summary (r : InsightRecord) (v : str) : InsightRecord :=
  mkInsight v (key_innovations r) (novel_methods r)
            (potential_applications r) (extracted_keywords r).
Definition set_key_innovations (r : InsightRecord) (v : list str) : InsightRecord :=
  mkInsight (insight_summary r) v (novel_methods r)
            (potential_applications r) (extracted_keywords r).
Definition set_novel_methods (r : InsightRecord) (v : list str) : InsightRecord :=
  mkInsight (insight_summary r) (key_innovations r) v
            (potential_applications r) (extracted_keywords r).
Definition set_potential_applications (r : InsightRecord) (v : list str) : InsightRecord :=
  mkInsight (insight_summary r) (key_innovations r) (novel_methods r)
            v (extracted_keywords r).
Definition set_extracted_keywords (r : InsightRecord) (v : list str) : InsightRecord :=
  mkInsight (insight_summary r) (key_innovations r) (novel_methods r)
            (potential_applications r) v.

(** The values [current_section] takes besides [None]: the five keys. *)
Inductive section : Type :=
| S_insight_summary
| S_key_innovations
| S_novel_methods
| S_potential_applications
| S_extracted_keywords.

Definition section_eqb (a b : section) : bool :=
  match a, b with
  | S_insight_summary, S_insight_summary
  | S_key_innovations, S_key_innovations
  | S_novel_methods, S_novel_methods
  | S_potential_applications, S_potential_applications
  | S_extracted_keywords, S_extracted_keywords => true
  | _, _ => false
  end.

(** The locals of the parser loop. *)
Record pstate : Type := mkState {
  result : InsightRecord;
  current_section : option section;
  current_text : list str
}.

(** [current_section == sec] *)
Definition in_section (st : pstate) (sec : section) : bool :=
  match current_section st with
  | Some s => section_eqb s sec
  | None => false
  end.

(** The header strings of the loop's [startswith] tests. *)
Definition HDR_SUMMARY : str := lit "Insight Summary:".
Definition HDR_INNOVATIONS : str := lit "Key Innovations:".
Definition HDR_METHODS_LONG : str := lit "Novel Methods / Techniques:".
Definition HDR_METHODS : str := lit "Novel Methods:".
Definition HDR_APPLICATIONS : str := lit "Potential Applications:".
Definition HDR_KEYWORDS : str := lit "Extracted Keywords:".

(** [[item for item in current_text if item]] *)
Definition nonempty_items (l : list str) : list str := filter truthy l.

(** [[kw.strip() for kw in text.split(",") if kw.strip()]] *)
Definition comma_keywords (text : str) : list str :=
  map strip (filter (fun kw => truthy (strip kw)) (split (lit ",") text)).

(** [current_text.append(x)] *)
Definition append_text (st : pstate) (x : str) : pstate :=
  mkState (result st) (current_section st) (current_text st ++ [x]).

(** [current_text.extend(xs)] *)
Definition extend_text (st : pstate) (xs : list str) : pstate :=
  mkState (result st) (current_section st) (current_text st ++ xs).

(** The text a summary header line carries after its first colon:
    the [after_colon] computation of the first branch. *)
Definition summary_seed (line : str) : outcome (list str) :=
  let after_colon := split_max (lit ":") 1 line in
  if (1 <? List.length after_colon) then
    x <- index after_colon 1 ;;
    if truthy (strip x) then
      y <- index after_colon 1 ;;
      Ok [strip y]
    else Ok []
  else Ok [].

(** "Process content based on current section": the second [if]/[elif]
    chain of the loop body, reached when no header matched. *)
Definition process_content (st : pstate) (line : str) : pstate :=
  match current_section st with
  | Some S_insight_summary =>
      if truthy line then append_text st line else st
  | Some S_key_innovations
  | Some S_novel_methods
  | Some S_potential_applications =>
      if startswith (lit "-") line || startswith (lit "*") line then
        let item := strip (lstrip (lit "-* ") line) in
        if truthy item then append_text st item else st
      else st
  | Some S_extracted_keywords =>
      if startswith (lit "-") line then
        let keywords_text := strip (lstrip (lit "- ") line) in
        extend_text st (comma_keywords keywords_text)
      else if contains (lit ",") line then
        extend_text st (comma_keywords line)
      else st
  | None => st
  end.

(** One iteration of [for line in lines]: header detection, each branch
    ending in [continue], then the content of the current section. *)
Definition loop_body (st : pstate) (line0 : str) : outcome pstate :=
  let line := strip line0 in
  if startswith HDR_SUMMARY line then
    seed <- summary_seed line ;;
    Ok (mkState (result st) (Some S_insight_summary) seed)
  else if startswith HDR_INNOVATIONS line then
    let res :=
      if in_section st S_insight_summary && truthy (current_text st)
      then set_insight_summary (result st)
             (strip (join (lit " ") (current_text st)))
      else result st in
    Ok (mkState res (Some S_key_innovations) [])
  else if startswith HDR_METHODS_LONG line || startswith HDR_METHODS line then
    let res :=
      if in_section st S_key_innovations && truthy (current_text st)
      then set_key_innovations (result st) (nonempty_items (current_text st))
      else result st in
    Ok (mkState res (Some S_novel_methods) [])
  else if startswith HDR_APPLICATIONS line then
    let res :=
      if in_section st S_novel_methods && truthy (current_text st)
      then set_novel_methods (result st) (nonempty_items (current_text st))
      else result st in
    Ok (mkState res (Some S_potential_applications) [])
  else if startswith HDR_KEYWORDS line then
    let res :=
      if in_section st S_potential_applications && truthy (current_text st)
      then set_potential_applications (result st)
             (nonempty_items (current_text st))
      else result st in
    Ok (mkState res (Some S_extracted_keywords) [])
  else Ok (process_content st line).

(** The [for] loop. *)
Fixpoint scan (st : pstate) (lines : list str) : outcome pstate :=
  match lines with
  | [] => Ok st
  | line :: rest => st' <- loop_body st line ;; scan st' rest
  end.

(** "Save final section": the [if]/[elif] chain after the loop. *)
Definition save_final_section (st : pstate) : InsightRecord :=
  if in_section st S_insight_summary && truthy (current_text st) then
    set_insight_summary (result st)
      (strip (join (lit " ") (current_text st)))
  else if in_section st S_key_innovations && truthy (current_text st) then
    set_key_innovations (result st) (nonempty_items (current_text st))
  else if in_section st S_novel_methods && truthy (current_text st) then
    set_novel_methods (result st) (nonempty_items (current_text st))
  else if in_section st S_potential_applications && truthy (current_text st)
  then
    set_potential_applications (result st)
      (nonempty_items (current_text st))
  else if in_section st S_extracted_keywords && truthy (current_text st) then
    set_extracted_keywords (result st) (firstn 8 (current_text st))
  else result st.

(** [[p.strip() for p in raw_output.split("\n\n") if p.strip()]] *)
Definition paragraphs_of (raw_output : str) : list str :=
  map strip (filter (fun p => truthy (strip p)) (split [LF; LF] raw_output)).

(** "Fallback: if parsing failed, try to extract at least the summary". *)
Definition fallback_summary (raw_output : str) (r : InsightRecord)
  : outcome InsightRecord :=
  if negb (truthy (insight_summary r)) then
    let paragraphs := paragraphs_of raw_output in
    if truthy paragraphs then
      p <- index paragraphs 0 ;;
      Ok (set_insight_summary r (firstn 500 p))
    else Ok r
  else Ok r.

Definition UNABLE : str := lit "Unable to generate insight summary.".

(** "Ensure we have at least something". *)
Definition ensure_summary (r : InsightRecord) : InsightRecord :=
  if negb (truthy (insight_summary r)) then set_insight_summary r UNABLE else r.

Definition empty_result : InsightRecord := mkInsight [] [] [] [] [].

Definition initial_state : pstate := mkState empty_result None [].

Definition _parse_structured_output (raw_output : str) : outcome InsightRecord :=
  let lines := split [LF] raw_output in
  st <- scan initial_state lines ;;
  r <- fallback_summary raw_output (save_final_section st) ;;
  Ok (ensure_summary r).

(** A text of several lines: the lines joined by newlines. *)
Definition unlines (lines : list str) : str := join [LF] lines.

Definition example_response : str :=
  unlines
    [ lit "Insight Summary:";
      lit "This method improves turbine efficiency by 12%.";
      lit "Key Innovations:";
      lit "- Adaptive blade pitch control";
      lit "Novel Methods:";
      lit "- Reinforcement-learning controller";
      lit "Potential Applications:";
      lit "- Offshore wind farms";
      lit "Extracted Keywords:";
      lit "- wind, turbine, reinforcement learning, control" ].

Definition example_record : InsightRecord :=
  mkInsight
    (lit "This method improves turbine efficiency by 12%.")
    [lit "Adaptive blade pitch control"]
    [lit "Reinforcement-learning controller"]
    [lit "Offshore wind farms"]
    [lit "wind"; lit "turbine"; lit "reinforcement learning"; lit "control"].


(* ------------------------------------------------------------------ *)
(** * The client: sentinel records, prompt and [summarize_abstract] *)
(* ------------------------------------------------------------------ *)

Definition _get_empty_insight : InsightRecord :=
  mkInsight (lit "No abstract available for summarization.") [] [] [] [].

(** The f-string of the prompt builder, line by line; the text ends with a
    newline.  The three code points after [<2] are the ones the source file
    holds there. *)
Definition _build_summarization_prompt (abstract : str) : str :=
  unlines
    [ lit "You are an expert research analyst specializing in Energy Technology and AI.";
      lit "Analyze the following arXiv paper abstract and generate an insight-oriented summary.";
      [];
      lit "Your task:";
      lit "- Do NOT rewrite the abstract";
      lit "- Identify what is truly new or innovative";
      lit "- Explain potential impact in practical energy systems";
      lit "- Extract meaningful technical keywords (not generic terms)";
      [];
      lit "Abstract:";
      abstract;
      [];
      lit "Generate your response in the EXACT format below (do not deviate):";
      [];
      lit "Insight Summary:";
      lit "<2" ++ [226; 8364; 8220]%N
        ++ lit "4 sentences written as an expert insight, focusing on innovation, novelty, and impact>";
      [];
      lit "Key Innovations:";
      lit "- <bullet point 1>";
      lit "- <bullet point 2>";
      [];
      lit "Novel Methods / Techniques:";
      lit "- <bullet point 1>";
      lit "- <bullet point 2>";
      [];
      lit "Potential Applications:";
      lit "- <bullet point 1>";
      lit "- <bullet point 2>";
      [];
      lit "Extracted Keywords:";
      lit "- keyword1, keyword2, keyword3, keyword4, keyword5";
      [] ].

(** The calls [summarize_abstract] makes, in order. *)
Inductive call : Type :=
| Call_generate (prompt : str)
| Call_parse (raw_output : str).

(** The record of the [except] branch for an exception [e]. *)
Definition error_insight (e : str) : InsightRecord :=
  set_insight_summary _get_empty_insight
    (lit "Error generating summary: " ++ e
       ++ lit ". Please check API key and network connection.").

Section Client.

(** The upstream collaborator: [self.model.generate_content(prompt)]
    followed by [response.text]. *)
Variable generate_content : str -> library_call str.

(** The body of the [try] block: the calls made and how the block ends.
    The [IndexError] the parser could raise is an [Exception]. *)
Definition try_summarize (prompt : str)
  : list call * library_call InsightRecord :=
  match generate_content prompt with
  | Returns text =>
      let raw_output := strip text in
      ([Call_generate prompt; Call_parse raw_output],
       match _parse_structured_output raw_output with
       | Ok parsed_insight => Returns parsed_insight
       | Raise e => Raises_exception e
       end)
  | Raises_exception e => ([Call_generate prompt], Raises_exception e)
  | Raises_base_exception e => ([Call_generate prompt], Raises_base_exception e)
  end.

(** [summarize_abstract]: the calls made, and the record returned or the
    exception that leaves the function.  [except Exception as e] handles the
    exceptions of class [Exception] only. *)
Definition summarize_abstract (abstract : str)
  : list call * outcome InsightRecord :=
  if negb (truthy abstract) || negb (truthy (strip abstract)) then
    ([], Ok _get_empty_insight)
  else
    let prompt := _build_summarization_prompt abstract in
    let (calls, attempt) := try_summarize prompt in
    match attempt with
    | Returns parsed_insight => (calls, Ok parsed_insight)
    | Raises_exception e => (calls, Ok (error_insight e))
    | Raises_base_exception e => (calls, Raise e)
    end.

End Client.

(* ------------------------------------------------------------------ *)
(** * Vocabulary of the specification *)
(* ------------------------------------------------------------------ *)

(** The section a trimmed line is a header of, by the order of the loop's
    [startswith] tests. *)
Definition header_of (line : str) : option section :=
  if startswith HDR_SUMMARY line then Some S_insight_summary
  else if startswith HDR_INNOVATIONS line then Some S_key_innovations
  else if startswith HDR_METHODS_LONG line || startswith HDR_METHODS line
       then Some S_novel_methods
  else if startswith HDR_APPLICATIONS line then Some S_potential_applications
  else if startswith HDR_KEYWORDS line then Some S_extracted_keywords
  else None.

(** A raw text has no recognized header line. *)
Definition no_header_line (raw_output : str) : bool :=
  forallb (fun line => match header_of (strip line) with
                       | None => true
                       | Some _ => false
                       end)
          (split [LF] raw_output).

(** The text is cut into [pieces] at its occurrences of [\n\n], found from
    left to right: no piece but the last holds an occurrence, not even one
    that ends on the first newline of the cut that closes the piece, and
    the last piece holds none. *)
Fixpoint leftmost_cuts (pieces : list str) : bool :=
  match pieces with
  | [] => false
  | [p] => negb (contains [LF; LF] p)
  | p :: rest => negb (contains [LF; LF] (p ++ [LF])) && leftmost_cuts rest
  end.

(** The paragraphs in the specification's words, "split raw_text on
    blank-line boundaries into paragraphs, trim each, discard empty ones":
    a blank line is a line with nothing but whitespace, a paragraph is the
    lines between two blank lines. *)
Fixpoint spec_paragraph_lines (current : list str) (lines : list str)
  : list (list str) :=
  match lines with
  | [] => [rev current]
  | line :: rest =>
      if truthy (strip line)
      then spec_paragraph_lines (line :: current) rest
      else rev current :: spec_paragraph_lines [] rest
  end.

Definition spec_paragraphs (raw_output : str) : list str :=
  filter truthy
    (map (fun paragraph => strip (unlines paragraph))
         (spec_paragraph_lines [] (split [LF] raw_output))).

(** The section whose buffer a header's branch saves: the one before it in
    the template. *)
Definition saved_by (sec : section) : option section :=
  match sec with
  | S_insight_summary => None
  | S_key_innovations => Some S_insight_summary
  | S_novel_methods => Some S_key_innovations
  | S_potential_applications => Some S_novel_methods
  | S_extracted_keywords => Some S_potential_applications
  end.

(** What a header branch stores: the buffer of the section named by
    [saved_by], when that section is the current one. *)
Definition saved_result (st : pstate) (sec : section) : InsightRecord :=
  match saved_by sec with
  | Some previous =>
      if in_section st previous then save_final_section st else result st
  | None => result st
  end.

(** The buffer a header line leaves: the text after the colon for the
    summary header, nothing for the others. *)
Definition seed_of (sec : section) (line : str) : list str :=
  match sec with
  | S_insight_summary =>
      let rest := strip (skipn (List.length HDR_SUMMARY) line) in
      if truthy rest then [rest] else []
  | _ => []
  end.

(** The flush rule in the specification's words: the summary is the buffer
    joined by single spaces and trimmed, a bulleted section is the buffer as
    it is, the keywords are the first eight entries; an empty buffer changes
    nothing. *)
Definition spec_flush (st : pstate) : InsightRecord :=
  match current_text st, current_section st with
  | [], _ | _, None => result st
  | buffer, Some S_insight_summary =>
      set_insight_summary (result st) (strip (join (lit " ") buffer))
  | buffer, Some S_key_innovations => set_key_innovations (result st) buffer
  | buffer, Some S_novel_methods => set_novel_methods (result st) buffer
  | buffer, Some S_potential_applications =>
      set_potential_applications (result st) buffer
  | buffer, Some S_extracted_keywords =>
      set_extracted_keywords (result st) (firstn 8 buffer)
  end.

(** The header transition in the specification's words: flush the previous
    section whichever it is, then switch. *)
Definition spec_header_transition (st : pstate) (sec : section) (line : str)
  : pstate :=
  mkState (spec_flush st) (Some sec) (seed_of sec line).

(** A line of a bulleted section starts with a bullet marker. *)
Definition is_bullet (line : str) : bool :=
  startswith (lit "-") line || startswith (lit "*") line.

(** The item of a bullet line in the specification's words: the line without
    its leading marker, trimmed. *)
Definition spec_bullet_item (line : str) : str := strip (tl line).

(** The item the loop takes from a bullet line. *)
Definition bullet_item (line : str) : str := strip (lstrip (lit "-* ") line).

Definition bulleted_section (st : pstate) : bool :=
  in_section st S_key_innovations || in_section st S_novel_methods
  || in_section st S_potential_applications.

(** Modelled from the spec: the re-serialization of a record "to the same
    template", which the repository does not implement.  The layout is the
    five-section format of the prompt: each header on a line of its own, the
    summary on the next line, one [- item] line per list entry, the keywords
    on one [- k1, k2, ...] line, a blank line after each section. *)
Definition serialize_lines (r : InsightRecord) : list str :=
  [HDR_SUMMARY; insight_summary r; []]
    ++ HDR_INNOVATIONS :: map (app (lit "- ")) (key_innovations r) ++ [[]]
    ++ HDR_METHODS_LONG :: map (app (lit "- ")) (novel_methods r) ++ [[]]
    ++ HDR_APPLICATIONS
         :: map (app (lit "- ")) (potential_applications r) ++ [[]]
    ++ [HDR_KEYWORDS;
        lit "- " ++ join (lit ", ") (extracted_keywords r);
        []].

(** Modelled from the spec: the serialized text, the lines above joined by
    newlines; the repository has no serializer. *)
Definition serialize (r : InsightRecord) : str := unlines (serialize_lines r).

(** Every text a record holds. *)
Definition text_fields (r : InsightRecord) : list str :=
  insight_summary r
    :: key_innovations r ++ novel_methods r ++ potential_applications r
    ++ extracted_keywords r.

Definition COMMA : char := 44%N.

(** A text that does not begin with a bullet marker or a header. *)
Definition plain_start (t : str) : bool :=
  negb (is_bullet t)
  && match header_of t with None => true | Some _ => false end.

(** No field collides with the header or bullet syntax: none begins with
    [-], [*] or a header, none holds a newline, no keyword holds a comma. *)
Definition collision_free (r : InsightRecord) : bool :=
  forallb (fun t => plain_start t && negb (mem LF t)) (text_fields r)
  && forallb (fun kw => negb (mem COMMA kw)) (extracted_keywords r).

Fixpoint str_eqb (a b : str) : bool :=
  match a, b with
  | [], [] => true
  | x :: a', y :: b' => N.eqb x y && str_eqb a' b'
  | _, _ => false
  end.

(** A text that is non-empty and has no leading or trailing whitespace. *)
Definition trimmed (t : str) : bool := truthy t && str_eqb (strip t) t.

(** The invariants of the record: every text trimmed and non-empty, at most
    eight keywords. *)
Definition canonical (r : InsightRecord) : bool :=
  forallb trimmed (text_fields r)
  && (List.length (extracted_keywords r) <=? 8).

(** The first character of a text exists and is outside the class [p];
    [last_outside] says the same of the last character. *)
Definition head_outside (p : char -> bool) (t : str) : Prop :=
  match t with
  | c :: _ => p c = false
  | [] => False
  end.

Definition last_outside (p : char -> bool) (t : str) : Prop :=
  head_outside p (rev t).

(** What the round trip asks of one text of a record. *)
Definition good_text (t : str) : Prop :=
  plain_start t = true /\ mem LF t = false /\ trimmed t = true.

(** What the round trip asks of one keyword. *)
Definition good_keyword (t : str) : Prop :=
  good_text t /\ mem COMMA t = false.

(** A record cut by the 500-character limit of the fallback: 499 letters
    and the space that followed them. *)
Definition long_paragraph : str := repeat 97%N 499 ++ lit " and the rest".

Definition truncated_record : InsightRecord :=
  mkInsight (repeat 97%N 499 ++ lit " ") [] [] [] [].

(** Every text of a list is non-empty and has no leading or trailing
    whitespace. *)
Definition clean_items (l : list str) : Prop :=
  Forall (fun t => trimmed t = true) l.

(** The four sequence fields of a record hold clean texts only. *)
Definition clean_lists (r : InsightRecord) : Prop :=
  clean_items (key_innovations r) /\ clean_items (novel_methods r)
  /\ clean_items (potential_applications r)
  /\ clean_items (extracted_keywords r).

(** The loop invariant behind the cleanliness of the output: the buffer and
    the lists stored so far are clean. *)
Definition clean_state (st : pstate) : Prop :=
  clean_items (current_text st) /\ clean_lists (result st).

(** While the keywords section is current, no buffered token holds a
    comma. *)
Definition comma_free_buffer (st : pstate) : Prop :=
  current_section st = Some S_extracted_keywords ->
  Forall (fun t => mem COMMA t = false) (current_text st).

(** No line of a list is a header line. *)
Definition header_free (lines : list str) : bool :=
  forallb (fun line => match header_of (strip line) with
                       | None => true
                       | Some _ => false
                       end)
          lines.

(** The non-blank lines of a list, each trimmed: what the summary section
    buffers. *)
Definition text_lines (lines : list str) : list str :=
  filter truthy (map strip lines).

(** No line of a list holds a newline. *)
Definition newline_free (lines : list str) : bool :=
  forallb (fun line => negb (mem LF line)) lines.

(** A summary stored by the loop: still empty, or non-empty with no leading
    or trailing whitespace. *)
Definition stored_summary_ok (r : InsightRecord) : Prop :=
  insight_summary r = [] \/ trimmed (insight_summary r) = true.

(* ------------------------------------------------------------------ *)
(** * [arxiv_client.py]: entries and papers *)
(* ------------------------------------------------------------------ *)

Definition SPACE : char := 32%N.

(** [s.replace(old, new)] for one-character [old] and [new]. *)
Definition replace_char (old new : char) (s : str) : str :=
  map (fun c => if N.eqb c old then new else c) s.

(** A word under construction joins the words found so far when it is not
    empty. *)
Definition push_word (w : str) (ws : list str) : list str :=
  if truthy w then w :: ws else ws.

(** The scan behind [s.split()]: the word the text begins with, possibly
    empty, and the words after it. *)
Fixpoint split_words_from (s : str) : str * list str :=
  match s with
  | [] => ([], [])
  | c :: t =>
      let (w, ws) := split_words_from t in
      if isspace c then ([], push_word w ws) else (c :: w, ws)
  end.

(** [s.split()]: the maximal runs of non-whitespace characters. *)
Definition split_whitespace (s : str) : list str :=
  let (w, ws) := split_words_from s in push_word w ws.

(** The title of a paper: [raw.replace("\n", " ").strip()]. *)
Definition clean_title (raw : str) : str := strip (replace_char LF SPACE raw).

(** The abstract of a paper:
    [" ".join(raw.replace("\n", " ").strip().split())]. *)
Definition clean_abstract (raw : str) : str :=
  join [SPACE] (split_whitespace (strip (replace_char LF SPACE raw))).

(** A naive [datetime], as its position on the time line: the microseconds
    since 0001-01-01 00:00:00.  Comparing two of them compares the
    positions. *)
Definition datetime := Z.

(** One of [entry.get("links", [])]: [link.get("type")] and
    [link.get("href")], [None] for a missing key. *)
Record feed_link : Type := mkLink {
  link_type : option str;
  link_href : option str
}.

(** What the code observes of [entry.published_parsed]. *)
Inductive published_parsed : Type :=
| Published_raises
    (** reading the attribute, or building the [datetime], raises an
        exception that is neither [ValueError] nor [TypeError] *)
| Published_falsy
    (** the attribute is [None] *)
| Published_invalid
    (** [datetime(...)] raises [ValueError] or [TypeError] *)
| Published_at (d : datetime)
    (** [datetime(...)] returns [d] *).

(** A feed entry, by what [parse_entry] reads of it: [None] for a key that
    [entry.get] does not find.  The title and the summary are strings, and
    every author has a name, as in the entries [feedparser] returns. *)
Record feed_entry : Type := mkEntry {
  entry_title : option str;
  entry_summary : option str;
  entry_authors : list str;
  entry_published : published_parsed;
  entry_links : list feed_link
}.

(** The dictionary [parse_entry] builds. *)
Record paper : Type := mkPaper {
  title : str;
  abstract : str;
  authors : list str;
  published_date : option datetime;
  pdf_link : option str
}.

(** [entry.get(key, "")] *)
Definition get_or_empty (v : option str) : str :=
  match v with Some s => s | None => [] end.

Definition APPLICATION_PDF : str := lit "application/pdf".

(** The loop over the links: the [href] of the first link whose type is
    [application/pdf]. *)
Fixpoint find_pdf_link (links : list feed_link) : option str :=
  match links with
  | [] => None
  | link :: rest =>
      match link_type link with
      | Some t => if str_eqb t APPLICATION_PDF then link_href link
                  else find_pdf_link rest
      | None => find_pdf_link rest
      end
  end.

(** [parse_entry]: [None] when the body raises. *)
Definition parse_entry (entry : feed_entry) : option paper :=
  let title := clean_title (get_or_empty (entry_title entry)) in
  let abstract := clean_abstract (get_or_empty (entry_summary entry)) in
  let authors := entry_authors entry in
  match entry_published entry with
  | Published_raises => None
  | Published_falsy | Published_invalid =>
      Some (mkPaper title abstract authors None
                    (find_pdf_link (entry_links entry)))
  | Published_at d =>
      Some (mkPaper title abstract authors (Some d)
                    (find_pdf_link (entry_links entry)))
  end.

(** [parse_entries]: the papers of the entries that parse, in order. *)
Fixpoint parse_entries (entries : list feed_entry) : list paper :=
  match entries with
  | [] => []
  | entry :: rest =>
      match parse_entry entry with
      | Some p => p :: parse_entries rest
      | None => parse_entries rest
      end
  end.

(** A maximal run of non-whitespace characters. *)
Definition is_word (w : str) : Prop :=
  w <> [] /\ forallb (fun c => negb (isspace c)) w = true.

(** [str(n)] of an [int], as an f-string renders it. *)
Definition str_of_int (n : Z) : str :=
  lit (DecimalString.NilZero.string_of_int (Z.to_int n)).

Definition ARXIV_BASE_URL : str := lit "http://export.arxiv.org/api/query".

(** [max_results or self.max_results]: [None] and [0] give the default. *)
Definition effective_max_results (max_results : option Z) (default : Z) : Z :=
  match max_results with
  | Some n => if (n =? 0)%Z then default else n
  | None => default
  end.

(** The f-string of [fetch]. *)
Definition fetch_url (self_max_results : Z) (query : str)
    (max_results : option Z) (sort_by sort_order : str) : str :=
  ARXIV_BASE_URL ++ lit "?"
    ++ lit "search_query=" ++ query ++ lit "&"
    ++ lit "start=0&"
    ++ lit "max_results="
    ++ str_of_int (effective_max_results max_results self_max_results)
    ++ lit "&"
    ++ lit "sortBy=" ++ sort_by ++ lit "&"
    ++ lit "sortOrder=" ++ sort_order.

(** What [fetch] does to the outside: a request, or a pause in seconds. *)
Inductive fetch_event : Type :=
| Fetch_parse (url : str)
| Fetch_sleep (seconds : Z).

Definition MAX_RETRIES : nat := 3.
Definition RETRY_DELAY : Z := 2%Z.

(** The events of a run whose first [failures] attempts failed and whose
    next attempt ended it. *)
Definition attempts_log (url : str) (failures : nat) : list fetch_event :=
  concat (repeat [Fetch_parse url; Fetch_sleep RETRY_DELAY] failures)
    ++ [Fetch_parse url].

Section Fetch.

(** The raw entries of a feed. *)
Variable entries : Type.

(** The body of the inner [try] on the [n]-th attempt, counted from 0:
    [feedparser.parse(url)] and the reads of [feed.bozo] and
    [feed.entries]. *)
Variable feedparser_parse : str -> nat -> library_call entries.

(** [for attempt in range(max_retries)], from [attempt] on, with
    [remaining] iterations left.  A loop that runs out falls off the end of
    the function, which then returns [None].  Both handlers are
    [except Exception]: an exception of another class leaves [fetch] at
    once, with no pause and no further attempt.  [time.sleep] is taken to
    return. *)
Fixpoint fetch_attempts (url : str) (attempt remaining : nat)
  : list fetch_event * outcome (option entries) :=
  match remaining with
  | O => ([], Ok None)
  | S rest =>
      match feedparser_parse url attempt with
      | Returns found => ([Fetch_parse url], Ok (Some found))
      | Raises_exception e =>
          if attempt <? MAX_RETRIES - 1 then
            let (events, out) := fetch_attempts url (S attempt) rest in
            (Fetch_parse url :: Fetch_sleep RETRY_DELAY :: events, out)
          else ([Fetch_parse url], Raise e)
      | Raises_base_exception e => ([Fetch_parse url], Raise e)
      end
  end.

(** [fetch]: the events, and the entries returned or the exception that
    leaves the function; the outer [except Exception] logs and raises
    again. *)
Definition fetch (self_max_results : Z) (query : str)
    (max_results : option Z) (sort_by sort_order : str)
  : list fetch_event * outcome (option entries) :=
  fetch_attempts
    (fetch_url self_max_results query max_results sort_by sort_order)
    0 MAX_RETRIES.

End Fetch.

(* ------------------------------------------------------------------ *)
(** * [filters.py] *)
(* ------------------------------------------------------------------ *)

(** [datetime(1970, 1, 1)]: 719162 days after 0001-01-01. *)
Definition EPOCH_1970 : datetime := (719162 * 86400000000)%Z.

Definition MICROSECONDS_PER_DAY : Z := 86400000000%Z.

Section Filters.

(** A paper dictionary, by the two keys the filters read. *)
Variable dict : Type.

(** [p.get("published_date")]: [None] for a missing key. *)
Variable get_published_date : dict -> option datetime.

(** [p.get("abstract")]: [None] for a missing key. *)
Variable get_abstract : dict -> option str.

(** [str.lower] *)
Variable lower : str -> str.

(** [datetime.now()] *)
Variable now : datetime.

(** [d - timedelta(days=n)]: [Raise] for the [OverflowError] of a
    [timedelta] or a date out of range. *)
Variable minus_days : datetime -> Z -> outcome datetime.

(** [p.get("published_date") and p["published_date"] >= cutoff_date] *)
Definition published_since (cutoff_date : datetime) (p : dict) : bool :=
  match get_published_date p with
  | Some d => (cutoff_date <=? d)%Z
  | None => false
  end.

Definition filter_by_months (papers : list dict) (months : Z)
  : outcome (list dict) :=
  if negb (truthy papers) then Ok []
  else
    cutoff_date <- minus_days now (months * 30)%Z ;;
    Ok (filter (published_since cutoff_date) papers).

(** The inner function [matches_keywords], with the keywords and the flag
    it closes over. *)
Definition matches_keywords (keywords : list str) (case_sensitive : bool)
    (p : dict) : bool :=
  match get_abstract p with
  | None => false
  | Some text =>
      if negb (truthy text) then false
      else
        let text := if case_sensitive then text else lower text in
        existsb (fun kw => contains kw text) keywords
  end.

Definition filter_by_abstract_keywords (papers : list dict)
    (keywords : list str) (case_sensitive : bool) : list dict :=
  if negb (truthy papers) || negb (truthy keywords) then papers
  else
    let keywords :=
      if case_sensitive then keywords else map lower keywords in
    filter (matches_keywords keywords case_sensitive) papers.

(** The inner function [get_date]. *)
Definition get_date (p : dict) : datetime :=
  match get_published_date p with
  | None => EPOCH_1970
  | Some d => d
  end.

(** [sorted(papers, key=get_date, reverse=True)]: the stable sort, largest
    key first, papers of equal key in their input order.  Inserting from
    the right end of the input gives that order. *)
Fixpoint insert_newest (p : dict) (sorted : list dict) : list dict :=
  match sorted with
  | [] => [p]
  | q :: rest =>
      if (get_date q <=? get_date p)%Z then p :: sorted
      else q :: insert_newest p rest
  end.

Fixpoint sort_by_newest (papers : list dict) : list dict :=
  match papers with
  | [] => []
  | p :: rest => insert_newest p (sort_by_newest rest)
  end.

End Filters.

(** [return [...]] of [get_default_energy_tech_keywords]. *)
Definition get_default_energy_tech_keywords : list str :=
  [ lit "energy"; lit "renewable"; lit "solar"; lit "wind"; lit "battery";
    lit "storage"; lit "grid"; lit "power"; lit "efficiency";
    lit "sustainable"; lit "photovoltaic"; lit "turbine"; lit "fuel cell";
    lit "hydrogen"; lit "electric"; lit "generation"; lit "transmission";
    lit "distribution" ].

(** [l[:n]] for an [int] [n]: a negative [n] counts from the end. *)
Definition slice_to {A : Type} (n : Z) (l : list A) : list A :=
  if (0 <=? n)%Z then firstn (Z.to_nat n) l
  else firstn (Z.to_nat (Z.of_nat (List.length l) + n)) l.

(** [args.keywords or get_default_energy_tech_keywords()] *)
Definition effective_keywords (args_keywords : option (list str)) : list str :=
  match args_keywords with
  | Some (kw :: more) => kw :: more
  | _ => get_default_energy_tech_keywords
  end.

(** Steps 4 and 5 of [main]: the month filter, the keyword filter with the
    default keywords for a missing or empty [--keywords], the sort and the
    cut to [--top-n]; on papers as [parse_entries] returns them.  Where
    [main] stops at an empty list, the selection is empty. *)
Definition select_top_papers (lower : str -> str) (now : datetime)
    (minus_days : datetime -> Z -> outcome datetime)
    (papers : list paper) (months : Z) (args_keywords : option (list str))
    (top_n : Z) : outcome (list paper) :=
  recent <- filter_by_months paper published_date now minus_days
              papers months ;;
  let keywords := effective_keywords args_keywords in
  let relevant :=
    filter_by_abstract_keywords paper (fun p => Some (abstract p)) lower
      recent keywords false in
  Ok (slice_to top_n (sort_by_newest paper published_date relevant)).

(** A paper passes both filters of [main]: dated on or after the cutoff,
    and a non-empty abstract that holds a keyword, compared in lower
    case. *)
Definition passes_filters (lower : str -> str) (cutoff_date : datetime)
    (keywords : list str) (p : paper) : bool :=
  published_since paper published_date cutoff_date p
  && matches_keywords paper (fun p => Some (abstract p)) lower
       (map lower keywords) false p.

(** [link.get("type") == "application/pdf"] *)
Definition is_pdf_link (link : feed_link) : bool :=
  match link_type link with
  | Some t => str_eqb t APPLICATION_PDF
  | None => false
  end.

(* ------------------------------------------------------------------ *)
(** * Facts about the primitives *)
(* ------------------------------------------------------------------ *)

Lemma truthy_false {A : Type} (l : list A) : truthy l = false <-> l = [].
Proof. destruct l; simpl; split; congruence. Qed.

Lemma truthy_true {A : Type} (l : list A) : truthy l = true <-> l <> [].
Proof. destruct l; simpl; split; congruence. Qed.

Lemma bind_ok {A B : Type} (a : A) (k : A -> outcome B) :
  (x <- Ok a ;; k x) = k a.
Proof. reflexivity. Qed.

(* ------------------------------------------------------------------ *)
(** * The loop body never raises *)
(* ------------------------------------------------------------------ *)

Lemma summary_seed_total (line : str) : exists seed, summary_seed line = Ok seed.
Proof.
  unfold summary_seed.
  destruct (split_max (lit ":") 1 line) as [|a [|b rest]]; simpl; eauto.
  destruct (truthy (strip b)); simpl; eauto.
Qed.

Lemma loop_body_total (st : pstate) (line : str) :
  exists st', loop_body st line = Ok st'.
Proof.
  unfold loop_body.
  destruct (startswith HDR_SUMMARY (strip line)).
  - destruct (summary_seed_total (strip line)) as [seed ->]. simpl. eauto.
  - repeat match goal with
           | |- context [if ?c then _ else _] => destruct c
           end; eauto.
Qed.

Lemma scan_total (lines : list str) :
  forall st, exists st', scan st lines = Ok st'.
Proof.
  induction lines as [|line rest IH]; intro st; simpl.
  - eauto.
  - destruct (loop_body_total st line) as [st1 ->]. simpl. apply IH.
Qed.

Lemma fallback_summary_total (raw_output : str) (r : InsightRecord) :
  exists r', fallback_summary raw_output r = Ok r'.
Proof.
  unfold fallback_summary.
  destruct (negb (truthy (insight_summary r))); eauto.
  destruct (paragraphs_of raw_output) as [|p ps]; simpl; eauto.
Qed.

Lemma ensure_summary_nonempty (r : InsightRecord) :
  insight_summary (ensure_summary r) <> [].
Proof.
  unfold ensure_summary.
  destruct (truthy (insight_summary r)) eqn:E; simpl.
  - now apply truthy_true.
  - discriminate.
Qed.

(** The sequence fields survive the two summary repairs. *)
Lemma ensure_summary_lists (r : InsightRecord) :
  key_innovations (ensure_summary r) = key_innovations r
  /\ novel_methods (ensure_summary r) = novel_methods r
  /\ potential_applications (ensure_summary r) = potential_applications r
  /\ extracted_keywords (ensure_summary r) = extracted_keywords r.
Proof. unfold ensure_summary. destruct (negb _); simpl; auto. Qed.

Lemma fallback_summary_lists (raw_output : str) (r r' : InsightRecord) :
  fallback_summary raw_output r = Ok r' ->
  key_innovations r' = key_innovations r
  /\ novel_methods r' = novel_methods r
  /\ potential_applications r' = potential_applications r
  /\ extracted_keywords r' = extracted_keywords r.
Proof.
  unfold fallback_summary.
  destruct (negb _); [|intros [= <-]; auto].
  destruct (paragraphs_of raw_output) as [|p ps]; simpl; intros [= <-]; auto.
Qed.

(** C7.  The parser is total: on every input it returns a record, never an
    exception, and the record's summary is non-empty; the five fields are
    the record's components and the four sequence fields are lists. *)
Theorem parse_total_nonempty_summary (raw_output : str) :
  exists r : InsightRecord,
    _parse_structured_output raw_output = Ok r /\ insight_summary r <> [].
Proof.
  unfold _parse_structured_output.
  destruct (scan_total (split [LF] raw_output) initial_state) as [st ->].
  rewrite bind_ok.
  destruct (fallback_summary_total raw_output (save_final_section st)) as [r ->].
  rewrite bind_ok.
  exists (ensure_summary r). split; [reflexivity | apply ensure_summary_nonempty].
Qed.

(* ------------------------------------------------------------------ *)
(** * The keyword limit *)
(* ------------------------------------------------------------------ *)

(** Inside the loop no branch writes [extracted_keywords]. *)
Lemma loop_body_keeps_keywords (st st' : pstate) (line : str) :
  loop_body st line = Ok st' ->
  extracted_keywords (result st') = extracted_keywords (result st).
Proof.
  unfold loop_body.
  destruct (startswith HDR_SUMMARY (strip line)).
  - destruct (summary_seed_total (strip line)) as [seed ->]. simpl.
    intros [= <-]. reflexivity.
  - unfold process_content, append_text, extend_text.
    repeat match goal with
           | |- context [if ?c then _ else _] => destruct c
           | |- context [match ?c with _ => _ end] => destruct c
           end; intros [= <-]; reflexivity.
Qed.

Lemma scan_keeps_keywords (lines : list str) :
  forall st st', scan st lines = Ok st' ->
  extracted_keywords (result st') = extracted_keywords (result st).
Proof.
  induction lines as [|line rest IH]; simpl; intros st st' H.
  - injection H as <-. reflexivity.
  - destruct (loop_body st line) as [st1|] eqn:E; simpl in H; [|discriminate].
    rewrite (IH _ _ H). eapply loop_body_keeps_keywords; eauto.
Qed.

Lemma save_final_section_keywords (st : pstate) :
  extracted_keywords (result st) = [] ->
  List.length (extracted_keywords (save_final_section st)) <= 8.
Proof.
  intro H. unfold save_final_section.
  repeat match goal with
         | |- context [if ?c then _ else _] => destruct c
         end;
    cbn [extracted_keywords set_insight_summary set_key_innovations
         set_novel_methods set_potential_applications set_extracted_keywords];
    first [apply firstn_le_length | rewrite H; simpl; lia].
Qed.

(** C3.  On every input the parser returns a record whose
    [extracted_keywords] has at most eight entries. *)
Theorem extracted_keywords_at_most_8 (raw_output : str) :
  exists r : InsightRecord,
    _parse_structured_output raw_output = Ok r
    /\ List.length (extracted_keywords r) <= 8.
Proof.
  unfold _parse_structured_output.
  destruct (scan_total (split [LF] raw_output) initial_state) as [st Hst].
  rewrite Hst, bind_ok.
  destruct (fallback_summary_total raw_output (save_final_section st)) as [r Hr].
  rewrite Hr, bind_ok.
  exists (ensure_summary r). split; [reflexivity|].
  destruct (ensure_summary_lists r) as (_ & _ & _ & ->).
  destruct (fallback_summary_lists _ _ _ Hr) as (_ & _ & _ & ->).
  apply save_final_section_keywords.
  now rewrite (scan_keeps_keywords _ _ _ Hst).
Qed.

(* ------------------------------------------------------------------ *)
(** * Header lines and content lines *)
(* ------------------------------------------------------------------ *)

Lemma startswith_app (p s : str) :
  startswith p s = true -> s = p ++ skipn (List.length p) s.
Proof.
  revert s. induction p as [|a p IH]; intros [|b s]; simpl; try congruence.
  intros H. apply andb_true_iff in H as [Hab Hps].
  apply N.eqb_eq in Hab. subst b. f_equal. now apply IH.
Qed.

Lemma split_from_spent (sep s : str) : split_from sep (Some 0) 0 s = [s].
Proof.
  induction s as [|c t IH]; simpl; [reflexivity|]. now rewrite IH.
Qed.

(** A one-character separator cuts at its first occurrence. *)
Lemma split_from_char_cut (c : char) (m : option nat) (a rest : str) :
  mem c a = false -> m <> Some 0 ->
  split_from [c] m 0 (a ++ c :: rest)
  = a :: split_from [c] (option_map Nat.pred m) 0 rest.
Proof.
  intros Ha Hm. induction a as [|x a IH]; simpl.
  - rewrite N.eqb_refl. destruct m as [[|k]|]; [now destruct Hm| |]; reflexivity.
  - simpl in Ha. apply orb_false_iff in Ha as [Hx Ha].
    rewrite Hx. simpl. rewrite andb_false_r. now rewrite IH.
Qed.

Lemma split_from_char_whole (c : char) (m : option nat) (a : str) :
  mem c a = false -> split_from [c] m 0 a = [a].
Proof.
  induction a as [|x a IH]; simpl; [reflexivity|].
  intro Ha. apply orb_false_iff in Ha as [Hx Ha].
  rewrite Hx. simpl. rewrite andb_false_r. now rewrite IH.
Qed.

Lemma summary_seed_app (tail : str) :
  summary_seed (HDR_SUMMARY ++ tail)
  = Ok (if truthy (strip tail) then [strip tail] else []).
Proof.
  unfold summary_seed, split_max.
  change (HDR_SUMMARY ++ tail) with (lit "Insight Summary" ++ 58%N :: tail).
  change (lit ":") with [58%N].
  rewrite split_from_char_cut by (reflexivity || discriminate).
  simpl option_map. rewrite split_from_spent. simpl.
  destruct (truthy (strip tail)); reflexivity.
Qed.

(** On a summary header line the seed is the trimmed text after the
    header, when there is any. *)
Lemma summary_seed_header (line : str) :
  startswith HDR_SUMMARY line = true ->
  summary_seed line = Ok (seed_of S_insight_summary line).
Proof.
  intro H. pose proof (startswith_app _ _ H) as E.
  unfold seed_of. rewrite E at 1. apply summary_seed_app.
Qed.

Lemma header_of_none (line : str) :
  header_of line = None ->
  startswith HDR_SUMMARY line = false
  /\ startswith HDR_INNOVATIONS line = false
  /\ startswith HDR_METHODS_LONG line || startswith HDR_METHODS line = false
  /\ startswith HDR_APPLICATIONS line = false
  /\ startswith HDR_KEYWORDS line = false.
Proof.
  unfold header_of.
  destruct (startswith HDR_SUMMARY line); [discriminate|].
  destruct (startswith HDR_INNOVATIONS line); [discriminate|].
  destruct (startswith HDR_METHODS_LONG line || startswith HDR_METHODS line);
    [discriminate|].
  destruct (startswith HDR_APPLICATIONS line); [discriminate|].
  destruct (startswith HDR_KEYWORDS line); [discriminate|].
  auto.
Qed.

(** A line that is no header goes to the content chain. *)
Lemma loop_body_content (st : pstate) (line : str) :
  header_of (strip line) = None ->
  loop_body st line = Ok (process_content st (strip line)).
Proof.
  intro H. apply header_of_none in H as (H1 & H2 & H3 & H4 & H5).
  unfold loop_body. now rewrite H1, H2, H3, H4, H5.
Qed.

Lemma in_section_eq (st : pstate) (sec : section) :
  in_section st sec = true <-> current_section st = Some sec.
Proof.
  unfold in_section. destruct (current_section st) as [s|].
  - destruct s, sec; simpl; split; congruence.
  - split; congruence.
Qed.

Lemma loop_body_header (st : pstate) (line : str) (sec : section) :
  header_of (strip line) = Some sec ->
  loop_body st line
  = Ok (mkState (saved_result st sec) (Some sec) (seed_of sec (strip line))).
Proof.
  unfold header_of, loop_body, saved_result, save_final_section.
  destruct (startswith HDR_SUMMARY (strip line)) eqn:E1.
  { intros [= <-]. rewrite (summary_seed_header _ E1). reflexivity. }
  destruct (startswith HDR_INNOVATIONS (strip line)).
  { intros [= <-]. cbn [saved_by seed_of].
    destruct (in_section st S_insight_summary) eqn:E; [|reflexivity].
    apply in_section_eq in E. unfold in_section. rewrite E.
    cbn [section_eqb andb].
    destruct (truthy (current_text st)); reflexivity. }
  destruct (startswith HDR_METHODS_LONG (strip line)
            || startswith HDR_METHODS (strip line)).
  { intros [= <-]. cbn [saved_by seed_of].
    destruct (in_section st S_key_innovations) eqn:E; [|reflexivity].
    apply in_section_eq in E. unfold in_section. rewrite E.
    cbn [section_eqb andb].
    destruct (truthy (current_text st)); reflexivity. }
  destruct (startswith HDR_APPLICATIONS (strip line)).
  { intros [= <-]. cbn [saved_by seed_of].
    destruct (in_section st S_novel_methods) eqn:E; [|reflexivity].
    apply in_section_eq in E. unfold in_section. rewrite E.
    cbn [section_eqb andb].
    destruct (truthy (current_text st)); reflexivity. }
  destruct (startswith HDR_KEYWORDS (strip line)).
  { intros [= <-]. cbn [saved_by seed_of].
    destruct (in_section st S_potential_applications) eqn:E; [|reflexivity].
    apply in_section_eq in E. unfold in_section. rewrite E.
    cbn [section_eqb andb].
    destruct (truthy (current_text st)); reflexivity. }
  discriminate.
Qed.

(** A bullet line is never a header: every header begins with a letter. *)
Lemma bullet_not_header (line : str) :
  is_bullet line = true -> header_of line = None.
Proof.
  unfold is_bullet. destruct line as [|c t]; [discriminate|].
  change (lit "-") with [45%N]. change (lit "*") with [42%N].
  cbn [startswith]. rewrite !andb_true_r. intro H.
  apply orb_true_iff in H as [H|H]; apply N.eqb_eq in H; subst c; reflexivity.
Qed.

(* ------------------------------------------------------------------ *)
(** * Texts without headers *)
(* ------------------------------------------------------------------ *)

Lemma scan_without_headers (lines : list str) :
  forallb (fun line => match header_of (strip line) with
                       | None => true
                       | Some _ => false
                       end) lines = true ->
  scan initial_state lines = Ok initial_state.
Proof.
  induction lines as [|line rest IH]; simpl; [reflexivity|].
  intro H. apply andb_true_iff in H as [Hline Hrest].
  destruct (header_of (strip line)) eqn:E; [discriminate|].
  rewrite (loop_body_content _ _ E). simpl. now apply IH.
Qed.

Lemma paragraphs_nonempty (raw_output p : str) :
  In p (paragraphs_of raw_output) -> p <> [].
Proof.
  unfold paragraphs_of. intro H.
  apply in_map_iff in H as (q & <- & Hq).
  apply filter_In in Hq as [_ Hq]. now apply truthy_true.
Qed.

Lemma no_header_paragraphs (raw_output : str) :
  no_header_line raw_output = true ->
  _parse_structured_output raw_output
  = Ok (mkInsight
          match paragraphs_of raw_output with
          | p :: _ => firstn 500 p
          | [] => lit "Unable to generate insight summary."
          end
          [] [] [] []).
Proof.
  intro H. unfold _parse_structured_output.
  rewrite (scan_without_headers _ H), bind_ok.
  change (save_final_section initial_state) with empty_result.
  unfold fallback_summary. change (insight_summary empty_result) with (@nil char).
  cbn [truthy negb].
  destruct (paragraphs_of raw_output) as [|p ps] eqn:E; cbn [truthy].
  - reflexivity.
  - assert (Hp : p <> []).
    { apply (paragraphs_nonempty raw_output). rewrite E. now left. }
    destruct p as [|c t]; [congruence|]. reflexivity.
Qed.

(** ** Cutting a text at [\n\n] *)

Lemma startswith_longer (p u v : str) :
  List.length p <= List.length u -> startswith p (u ++ v) = startswith p u.
Proof.
  revert u. induction p as [|a p IH]; intros [|b u] H; simpl in *;
    try reflexivity; try lia.
  f_equal. apply IH. lia.
Qed.

Lemma startswith_break_inside (x : char) (a rest : str) :
  startswith [LF; LF] (x :: a ++ LF :: LF :: rest)
  = startswith [LF; LF] (x :: a ++ [LF]).
Proof.
  replace (x :: a ++ LF :: LF :: rest) with ((x :: a ++ [LF]) ++ LF :: rest)
    by (simpl; now rewrite <- app_assoc).
  apply startswith_longer. simpl. rewrite length_app. simpl. lia.
Qed.

(** A text without the separator is one piece. *)
Lemma split_whole (sep a : str) : contains sep a = false -> split sep a = [a].
Proof.
  unfold split. induction a as [|c a IH]; intro H; [reflexivity|].
  cbn [contains] in H. apply orb_false_iff in H as [Hs Hc].
  cbn [split_from]. rewrite Hs, andb_false_r, (IH Hc). reflexivity.
Qed.

(** The first cut is at the leftmost [\n\n]. *)
Lemma split_break_cut (a rest : str) :
  contains [LF; LF] (a ++ [LF]) = false ->
  split [LF; LF] (a ++ LF :: LF :: rest) = a :: split [LF; LF] rest.
Proof.
  unfold split. induction a as [|x a IH]; intro H.
  - cbn [app split_from startswith]. rewrite N.eqb_refl. reflexivity.
  - cbn [app contains] in H. apply orb_false_iff in H as [Hs Hc].
    cbn [app split_from].
    rewrite startswith_break_inside, Hs, andb_false_r, (IH Hc). reflexivity.
Qed.

Lemma contains_leftmost (s : str) :
  contains [LF; LF] s = true ->
  exists a rest,
    s = a ++ LF :: LF :: rest /\ contains [LF; LF] (a ++ [LF]) = false.
Proof.
  induction s as [|c t IH]; intro H; [discriminate|].
  cbn [contains] in H. destruct (startswith [LF; LF] (c :: t)) eqn:E.
  - destruct t as [|d rest]; cbn [startswith] in E;
      [now rewrite andb_false_r in E|].
    apply andb_true_iff in E as [Ec Ed]. rewrite andb_true_r in Ed.
    apply N.eqb_eq in Ec, Ed. subst c d. now exists [], rest.
  - destruct (IH H) as (a & rest & -> & Ha).
    exists (c :: a), rest. split; [reflexivity|].
    cbn [app contains]. rewrite <- (startswith_break_inside c a rest), E.
    exact Ha.
Qed.

Lemma split_not_nil (sep s : str) : split sep s <> [].
Proof.
  unfold split. generalize (@None nat) 0.
  induction s as [|c t IH]; intros m skip; cbn [split_from]; [discriminate|].
  destruct skip; [|apply IH].
  destruct (_ && _); [discriminate|].
  now destruct (split_from sep m 0 t).
Qed.

(** [split] at [\n\n] cuts at the leftmost occurrences, and joining its
    pieces gives the text back. *)
Lemma split_break_pieces (s : str) :
  join [LF; LF] (split [LF; LF] s) = s
  /\ leftmost_cuts (split [LF; LF] s) = true.
Proof.
  remember (List.length s) as n eqn:Hn.
  assert (Hlen : List.length s <= n) by lia. clear Hn.
  revert s Hlen. induction n as [|n IH]; intros s Hlen;
    destruct (contains [LF; LF] s) eqn:E.
  - destruct s; [discriminate | simpl in Hlen; lia].
  - rewrite (split_whole _ _ E). cbn [join leftmost_cuts]. now rewrite E.
  - destruct (contains_leftmost _ E) as (a & rest & -> & Ha).
    rewrite (split_break_cut _ _ Ha).
    rewrite length_app in Hlen. cbn [List.length] in Hlen.
    destruct (IH rest ltac:(lia)) as [Hjoin Hcuts].
    pose proof (split_not_nil [LF; LF] rest) as Hne.
    destruct (split [LF; LF] rest) as [|piece more]; [congruence|].
    change (join [LF; LF] (a :: piece :: more))
      with (a ++ [LF; LF] ++ join [LF; LF] (piece :: more)).
    change (leftmost_cuts (a :: piece :: more))
      with (negb (contains [LF; LF] (a ++ [LF]))
            && leftmost_cuts (piece :: more)).
    rewrite Hjoin, Ha, Hcuts. now split.
  - rewrite (split_whole _ _ E). cbn [join leftmost_cuts]. now rewrite E.
Qed.

(** Only one list of pieces cuts a text at its leftmost [\n\n]: the one
    [split] returns. *)
Lemma split_join_break (pieces : list str) :
  leftmost_cuts pieces = true ->
  split [LF; LF] (join [LF; LF] pieces) = pieces.
Proof.
  induction pieces as [|p rest IH]; [discriminate|].
  destruct rest as [|q rest]; intro H.
  - cbn [leftmost_cuts join] in *. apply split_whole. now apply negb_true_iff.
  - change (negb (contains [LF; LF] (p ++ [LF]))
            && leftmost_cuts (q :: rest) = true) in H.
    apply andb_true_iff in H as [Hp Hrest]. apply negb_true_iff in Hp.
    change (join [LF; LF] (p :: q :: rest))
      with (p ++ LF :: LF :: join [LF; LF] (q :: rest)).
    rewrite (split_break_cut _ _ Hp). f_equal. now apply IH.
Qed.

Lemma first_kept_piece {A : Type} (pieces : list str) (found : str -> A)
    (none : A) :
  match map strip (filter (fun p => truthy (strip p)) pieces) with
  | p :: _ => found p
  | [] => none
  end
  = match find (fun p => truthy (strip p)) pieces with
    | Some p => found (strip p)
    | None => none
    end.
Proof.
  induction pieces as [|p rest IH]; [reflexivity|].
  cbn [filter find]. now destruct (truthy (strip p)).
Qed.

(** C6, as stated, fails: the fallback cuts the text at two consecutive
    newlines only.  In [first], a line holding one space, [second] the
    middle line is blank, yet the text is one paragraph for the code, and
    the summary is the whole text, not its first paragraph [first]. *)
Lemma blank_line_boundary_counterexample :
  let raw_output := unlines [lit "first"; lit " "; lit "second"] in
  no_header_line raw_output = true
  /\ spec_paragraphs raw_output = [lit "first"; lit "second"]
  /\ _parse_structured_output raw_output
     = Ok (mkInsight raw_output [] [] [] [])
  /\ raw_output <> lit "first".
Proof.
  repeat split; try (vm_compute; reflexivity). vm_compute. discriminate.
Qed.

(** C6, amended.  A text with no recognized header line parses to a record
    whose four sequence fields are empty.  Its summary is read off the
    pieces of the text between its occurrences of [\n\n], taken from left
    to right ([leftmost_cuts]; there is exactly one such list of pieces):
    the first piece that is not blank, trimmed and cut to its first 500
    characters, or the fixed string when every piece is blank.  A line
    that holds only whitespace does not end a piece. *)
Theorem no_header_summary_fallback (raw_output : str) :
  no_header_line raw_output = true ->
  (exists pieces,
     leftmost_cuts pieces = true /\ raw_output = join [LF; LF] pieces)
  /\ forall pieces,
       leftmost_cuts pieces = true ->
       raw_output = join [LF; LF] pieces ->
       _parse_structured_output raw_output
       = Ok (mkInsight
               match find (fun p => truthy (strip p)) pieces with
               | Some p => firstn 500 (strip p)
               | None => lit "Unable to generate insight summary."
               end
               [] [] [] []).
Proof.
  intro H. split.
  - exists (split [LF; LF] raw_output).
    destruct (split_break_pieces raw_output) as [Hjoin Hcuts]. now split.
  - intros pieces Hcuts Hraw.
    rewrite (no_header_paragraphs _ H). unfold paragraphs_of.
    rewrite Hraw, (split_join_break _ Hcuts).
    now rewrite first_kept_piece.
Qed.

Lemma no_header_summary_fallback_witness :
  let pieces := [lit "  "; LF :: lit " " ++ repeat 97%N 600 ++ lit " ";
                 lit "second paragraph"] in
  let raw_output := join [LF; LF] pieces in
  no_header_line raw_output = true
  /\ leftmost_cuts pieces = true
  /\ List.length (split [LF; LF] raw_output) = 3
  /\ _parse_structured_output raw_output
     = Ok (mkInsight (repeat 97%N 500) [] [] [] []).
Proof.
  intros pieces raw_output.
  assert (H : no_header_line raw_output = true) by (vm_compute; reflexivity).
  assert (Hcuts : leftmost_cuts pieces = true) by (vm_compute; reflexivity).
  split; [exact H|]. split; [exact Hcuts|].
  split; [vm_compute; reflexivity|].
  rewrite (proj2 (no_header_summary_fallback raw_output H) pieces Hcuts eq_refl).
  vm_compute. reflexivity.
Defined.

(* ------------------------------------------------------------------ *)
(** * Header transitions *)
(* ------------------------------------------------------------------ *)

(** C2.  The code does not do what the claim says, and what its own
    comments say ("Save previous section").  Each header branch saves the
    buffer only when the current section is the one before it in the
    template.  In the text below [Potential Applications:] comes right
    after the innovations: at that header the current section is
    innovations and the buffer holds [Adaptive control]; the claim has the
    header store the buffer in [key_innovations]
    ([spec_header_transition]), the code drops it, and the parsed record
    has no key innovation.  When the dropped buffer is the summary's, the
    fallback then takes the whole text, headers included, for the
    summary. *)
Theorem header_drops_unsaved_buffer :
  let st := mkState (mkInsight (lit "Faster cells.") [] [] [] [])
                    (Some S_key_innovations) [lit "Adaptive control"] in
  let line := lit "Potential Applications:" in
  scan initial_state
       [lit "Insight Summary:"; lit "Faster cells.";
        lit "Key Innovations:"; lit "- Adaptive control"] = Ok st
  /\ header_of (strip line) = Some S_potential_applications
  /\ loop_body st line
     = Ok (mkState (mkInsight (lit "Faster cells.") [] [] [] [])
                   (Some S_potential_applications) [])
  /\ spec_header_transition st S_potential_applications (strip line)
     = mkState (mkInsight (lit "Faster cells.") [lit "Adaptive control"]
                          [] [] [])
               (Some S_potential_applications) []
  /\ _parse_structured_output
       (unlines [lit "Insight Summary:"; lit "Faster cells.";
                 lit "Key Innovations:"; lit "- Adaptive control";
                 lit "Potential Applications:"; lit "- Wind farms"])
     = Ok (mkInsight (lit "Faster cells.") [] [] [lit "Wind farms"] [])
  /\ _parse_structured_output
       (unlines [lit "Insight Summary:"; lit "Faster cells.";
                 lit "Potential Applications:"; lit "- Wind farms"])
     = Ok (mkInsight
             (unlines [lit "Insight Summary:"; lit "Faster cells.";
                       lit "Potential Applications:"; lit "- Wind farms"])
             [] [] [lit "Wind farms"] []).
Proof. repeat split; vm_compute; reflexivity. Qed.

(* ------------------------------------------------------------------ *)
(** * Content lines of the bulleted sections *)
(* ------------------------------------------------------------------ *)

Lemma process_content_bulleted (st : pstate) (line : str) :
  bulleted_section st = true ->
  process_content st line
  = if is_bullet line
    then if truthy (bullet_item line)
         then append_text st (bullet_item line) else st
    else st.
Proof.
  unfold bulleted_section, in_section, process_content, is_bullet, bullet_item.
  destruct (current_section st) as [[]|]; simpl; try discriminate; reflexivity.
Qed.

(** C8, as stated, fails: the loop strips every leading [-], [*] and space,
    not one marker.  The bullet [- **Adaptive** pitch control] contributes
    [Adaptive** pitch control], not the text after its marker; the line
    [- -] contributes nothing although the text after its marker is [-]. *)
Lemma bullet_item_counterexample :
  let st := mkState empty_result (Some S_key_innovations) [] in
  loop_body st (lit "- **Adaptive** pitch control")
  = Ok (append_text st (lit "Adaptive** pitch control"))
  /\ spec_bullet_item (strip (lit "- **Adaptive** pitch control"))
     = lit "**Adaptive** pitch control"
  /\ loop_body st (lit "- -") = Ok st
  /\ spec_bullet_item (strip (lit "- -")) = lit "-".
Proof. repeat split; vm_compute; reflexivity. Qed.

(** C8, amended.  While the current section is innovations, methods or
    applications, a line adds an item to the buffer if and only if its
    trimmed text begins with [-] or [*] and [bullet_item] of it is
    non-empty, where [bullet_item] removes the whole leading run of [-],
    [*] and space characters and then trims; the item added is exactly
    [bullet_item].  A line that begins with neither marker and is no header
    changes nothing. *)
Theorem bulleted_line_contribution (st : pstate) (line : str) :
  bulleted_section st = true ->
  (is_bullet (strip line) = true ->
   loop_body st line
   = Ok (if truthy (bullet_item (strip line))
         then append_text st (bullet_item (strip line))
         else st))
  /\ (is_bullet (strip line) = false ->
      header_of (strip line) = None ->
      loop_body st line = Ok st).
Proof.
  intro Hsec. split.
  - intro Hb. rewrite (loop_body_content _ _ (bullet_not_header _ Hb)).
    rewrite (process_content_bulleted _ _ Hsec), Hb. reflexivity.
  - intros Hb Hh. rewrite (loop_body_content _ _ Hh).
    rewrite (process_content_bulleted _ _ Hsec), Hb. reflexivity.
Qed.

Lemma bulleted_line_contribution_witness :
  let st := mkState empty_result (Some S_novel_methods) [lit "first"] in
  bulleted_section st = true
  /\ loop_body st (lit "  * second item ")
     = Ok (mkState empty_result (Some S_novel_methods)
                   [lit "first"; lit "second item"])
  /\ loop_body st (lit "a continuation line") = Ok st.
Proof.
  split; [reflexivity|].
  destruct (bulleted_line_contribution
              (mkState empty_result (Some S_novel_methods) [lit "first"])
              (lit "  * second item ") eq_refl) as [Hyes _].
  destruct (bulleted_line_contribution
              (mkState empty_result (Some S_novel_methods) [lit "first"])
              (lit "a continuation line") eq_refl) as [_ Hno].
  split; [exact (Hyes eq_refl) | exact (Hno eq_refl eq_refl)].
Defined.

(* ------------------------------------------------------------------ *)
(** * Content lines of the keywords section *)
(* ------------------------------------------------------------------ *)

(** C10.  While the current section is keywords, a line whose trimmed text
    neither starts with [-] nor holds a comma adds no token: the record is
    untouched, a buffer that is still the keywords buffer holds nothing it
    did not hold before, and when the line is no header the whole state is
    unchanged, so a lone keyword on its line is dropped. *)
Theorem keyword_line_without_dash_or_comma (st : pstate) (line : str) :
  in_section st S_extracted_keywords = true ->
  startswith (lit "-") (strip line) = false ->
  contains (lit ",") (strip line) = false ->
  exists st',
    loop_body st line = Ok st'
    /\ result st' = result st
    /\ (current_section st' = Some S_extracted_keywords ->
        incl (current_text st') (current_text st))
    /\ (header_of (strip line) = None -> st' = st).
Proof.
  intros Hsec Hdash Hcomma.
  pose proof (proj1 (in_section_eq _ _) Hsec) as Hcur.
  destruct (header_of (strip line)) as [sec|] eqn:Hh.
  - rewrite (loop_body_header _ _ _ Hh). eexists. split; [reflexivity|].
    cbn [result current_section current_text]. repeat split.
    + unfold saved_result, in_section. rewrite Hcur.
      destruct sec; reflexivity.
    + intros [= ->]. simpl. apply incl_nil_l.
    + discriminate.
  - rewrite (loop_body_content _ _ Hh). eexists. split; [reflexivity|].
    unfold process_content. rewrite Hcur, Hdash, Hcomma.
    split; [reflexivity|]. split; [intros _; apply incl_refl | reflexivity].
Qed.

Lemma keyword_line_without_dash_or_comma_witness :
  let st := mkState empty_result (Some S_extracted_keywords) [lit "wind"] in
  in_section st S_extracted_keywords = true
  /\ startswith (lit "-") (strip (lit " photovoltaics ")) = false
  /\ contains (lit ",") (strip (lit " photovoltaics ")) = false
  /\ loop_body st (lit " photovoltaics ") = Ok st.
Proof.
  repeat (split; [reflexivity|]).
  destruct (keyword_line_without_dash_or_comma
              (mkState empty_result (Some S_extracted_keywords) [lit "wind"])
              (lit " photovoltaics ") eq_refl eq_refl eq_refl)
    as (st' & Hrun & _ & _ & Hsame).
  rewrite Hrun. f_equal. exact (Hsame eq_refl).
Defined.

(** A keywords section holding only a lone keyword yields no keyword. *)
Example lone_keyword_dropped :
  exists r,
    _parse_structured_output
      (unlines [lit "Insight Summary: A note."; lit "Extracted Keywords:";
                lit "photovoltaics"]) = Ok r
    /\ extracted_keywords r = [].
Proof. eexists. split; [vm_compute; reflexivity | reflexivity]. Qed.

(* ------------------------------------------------------------------ *)
(** * The client's sentinel paths *)
(* ------------------------------------------------------------------ *)

(** C4.  For an empty or whitespace-only abstract, [summarize_abstract]
    returns the sentinel record and makes no call: neither the upstream
    generation nor the parser is invoked. *)
Theorem summarize_blank_abstract
    (generate_content : str -> library_call str) (abstract : str) :
  strip abstract = [] ->
  summarize_abstract generate_content abstract
  = ([], Ok (mkInsight (lit "No abstract available for summarization.")
                       [] [] [] [])).
Proof.
  intro H. unfold summarize_abstract. rewrite H. cbn [truthy negb].
  rewrite orb_true_r. reflexivity.
Qed.

Lemma summarize_blank_abstract_witness :
  strip (lit "   ") = []
  /\ summarize_abstract (fun _ => Returns (lit "Insight Summary: unused"))
                        (lit "   ")
     = ([], Ok (mkInsight (lit "No abstract available for summarization.")
                          [] [] [] [])).
Proof.
  split; [reflexivity|].
  exact (summarize_blank_abstract
           (fun _ => Returns (lit "Insight Summary: unused")) (lit "   ")
           eq_refl).
Defined.




(* ------------------------------------------------------------------ *)
(** * Trimming, membership and splitting *)
(* ------------------------------------------------------------------ *)

Lemma lstrip_by_length (p : char -> bool) (s : str) :
  List.length (lstrip_by p s) <= List.length s.
Proof.
  induction s as [|c s IH]; simpl; [lia|].
  destruct (p c); simpl; lia.
Qed.

Lemma rstrip_by_length (p : char -> bool) (s : str) :
  List.length (rstrip_by p s) <= List.length s.
Proof.
  unfold rstrip_by. rewrite length_rev.
  rewrite <- (length_rev s). apply lstrip_by_length.
Qed.

Lemma lstrip_by_keep (p : char -> bool) (t : str) :
  head_outside p t -> lstrip_by p t = t.
Proof. destruct t as [|c t]; simpl; [tauto|]. now intros ->. Qed.

Lemma lstrip_by_fixed (p : char -> bool) (t : str) :
  t <> [] -> lstrip_by p t = t -> head_outside p t.
Proof.
  destruct t as [|c t]; [congruence|]. intros _ H. simpl in *.
  destruct (p c) eqn:E; [|reflexivity].
  pose proof (lstrip_by_length p t) as Hlen. rewrite H in Hlen.
  simpl in Hlen. lia.
Qed.

Lemma rstrip_by_keep (p : char -> bool) (t : str) :
  last_outside p t -> rstrip_by p t = t.
Proof.
  unfold last_outside, rstrip_by. intro H.
  rewrite (lstrip_by_keep _ _ H). apply rev_involutive.
Qed.

Lemma strip_keep (t : str) :
  head_outside isspace t -> last_outside isspace t -> strip t = t.
Proof.
  intros Hh Hl. unfold strip. rewrite (lstrip_by_keep _ _ Hh).
  now apply rstrip_by_keep.
Qed.

Lemma strip_fixed_edges (t : str) :
  t <> [] -> strip t = t ->
  head_outside isspace t /\ last_outside isspace t.
Proof.
  intros Hne H.
  assert (Hl : lstrip_by isspace t = t).
  { destruct t as [|c t]; [congruence|].
    unfold strip in H. simpl in *. destruct (isspace c) eqn:E; [|reflexivity].
    pose proof (rstrip_by_length isspace (lstrip_by isspace t)) as H1.
    pose proof (lstrip_by_length isspace t) as H2.
    rewrite H in H1. simpl in H1. lia. }
  split; [now apply lstrip_by_fixed|].
  unfold strip in H. rewrite Hl in H. unfold rstrip_by in H.
  apply (f_equal (@rev char)) in H. rewrite rev_involutive in H.
  apply lstrip_by_fixed; [|exact H].
  intro E. apply Hne. rewrite <- (rev_involutive t), E. reflexivity.
Qed.

Lemma str_eqb_eq (a b : str) : str_eqb a b = true -> a = b.
Proof.
  revert b. induction a as [|x a IH]; intros [|y b]; simpl; try congruence.
  intro H. apply andb_true_iff in H as [Hxy Hab].
  apply N.eqb_eq in Hxy. f_equal; auto.
Qed.

Lemma trimmed_edges (t : str) :
  trimmed t = true ->
  t <> [] /\ head_outside isspace t /\ last_outside isspace t.
Proof.
  unfold trimmed. intro H. apply andb_true_iff in H as [Hne Heq].
  apply truthy_true in Hne. apply str_eqb_eq in Heq.
  split; [assumption | now apply strip_fixed_edges].
Qed.

Lemma trimmed_strip (t : str) : trimmed t = true -> strip t = t.
Proof.
  intro H. apply trimmed_edges in H as (_ & Hh & Hl). now apply strip_keep.
Qed.

Lemma last_outside_app (p : char -> bool) (a t : str) :
  last_outside p t -> last_outside p (a ++ t).
Proof.
  unfold last_outside. rewrite rev_app_distr.
  destruct (rev t) as [|d u]; simpl; tauto.
Qed.

Lemma head_outside_app (p : char -> bool) (t b : str) :
  head_outside p t -> head_outside p (t ++ b).
Proof. destruct t as [|c t]; simpl; tauto. Qed.

Lemma mem_app (c : char) (a b : str) : mem c (a ++ b) = mem c a || mem c b.
Proof. apply existsb_app. Qed.

Lemma mem_join (c : char) (sep : str) (parts : list str) :
  mem c sep = false ->
  Forall (fun t => mem c t = false) parts ->
  mem c (join sep parts) = false.
Proof.
  intros Hsep H. induction H as [|t parts Ht Hparts IH]; [reflexivity|].
  destruct parts as [|t2 parts]; [exact Ht|].
  change (join sep (t :: t2 :: parts))
    with (t ++ sep ++ join sep (t2 :: parts)).
  now rewrite !mem_app, Ht, Hsep, IH.
Qed.

(** Splitting at a character undoes joining with it, when no part holds
    the character. *)
Lemma split_join_char (c : char) (parts : list str) :
  parts <> [] ->
  Forall (fun t => mem c t = false) parts ->
  split [c] (join [c] parts) = parts.
Proof.
  intros Hne H. unfold split.
  induction H as [|t parts Ht Hparts IH]; [congruence|].
  destruct parts as [|t2 parts].
  - simpl. now apply split_from_char_whole.
  - change (join [c] (t :: t2 :: parts))
      with (t ++ c :: join [c] (t2 :: parts)).
    rewrite split_from_char_cut by (assumption || discriminate).
    simpl option_map. f_equal. apply IH. discriminate.
Qed.

(* ------------------------------------------------------------------ *)
(** * Scanning a serialized record *)
(* ------------------------------------------------------------------ *)

Lemma scan_cons (st : pstate) (line : str) (rest : list str) :
  scan st (line :: rest) = (st' <- loop_body st line ;; scan st' rest).
Proof. reflexivity. Qed.

Lemma scan_app (l1 l2 : list str) :
  forall st, scan st (l1 ++ l2) = (st' <- scan st l1 ;; scan st' l2).
Proof.
  induction l1 as [|line l1 IH]; intro st; simpl; [reflexivity|].
  destruct (loop_body st line); simpl; auto.
Qed.

(** A blank line changes nothing, whatever the section. *)
Lemma loop_body_blank (st : pstate) : loop_body st [] = Ok st.
Proof.
  rewrite loop_body_content by reflexivity.
  change (strip []) with (@nil char). unfold process_content.
  destruct (current_section st) as [[]|]; reflexivity.
Qed.

Lemma good_text_facts (t : str) :
  good_text t ->
  t <> [] /\ head_outside isspace t /\ last_outside isspace t
  /\ is_bullet t = false /\ header_of t = None /\ mem LF t = false.
Proof.
  intros (Hplain & Hlf & Htrim).
  apply trimmed_edges in Htrim as (Hne & Hh & Hl).
  unfold plain_start in Hplain. apply andb_true_iff in Hplain as [Hb Hhd].
  apply negb_true_iff in Hb.
  destruct (header_of t); [discriminate|]. auto 10.
Qed.

(** The first character of a text that is no bullet and starts with no
    whitespace is none of [-], [*] and space. *)
Lemma head_outside_markers (chars t : str) :
  incl chars (lit "-* ") ->
  head_outside isspace t -> is_bullet t = false ->
  head_outside (fun c => mem c chars) t.
Proof.
  intros Hincl Hh Hb. destruct t as [|c t]; [exact Hh|].
  cbn [head_outside] in *.
  destruct (mem c chars) eqn:E; [|reflexivity].
  apply existsb_exists in E as (x & Hx & Hcx). apply N.eqb_eq in Hcx. subst x.
  apply Hincl in Hx. change (lit "-* ") with [45; 42; 32]%N in Hx.
  cbn [In] in Hx. unfold is_bullet in Hb.
  change (lit "-") with [45%N] in Hb. change (lit "*") with [42%N] in Hb.
  cbn [startswith] in Hb. rewrite !andb_true_r in Hb.
  apply orb_false_iff in Hb as [H45 H42].
  apply N.eqb_neq in H45. apply N.eqb_neq in H42.
  destruct Hx as [<-|[<-|[<-|[]]]]; try congruence.
  vm_compute in Hh. discriminate.
Qed.

Lemma dash_line_strip (t : str) :
  last_outside isspace t -> strip (lit "- " ++ t) = lit "- " ++ t.
Proof.
  intro Hl. apply strip_keep; [reflexivity | now apply last_outside_app].
Qed.

Lemma dash_line_lstrip (chars t : str) :
  mem 45%N chars = true -> mem 32%N chars = true ->
  head_outside (fun c => mem c chars) t ->
  lstrip chars (lit "- " ++ t) = t.
Proof.
  intros H45 H32 Hh. unfold lstrip.
  change (lit "- " ++ t) with (45%N :: 32%N :: t).
  cbn [lstrip_by]. rewrite H45, H32. now apply lstrip_by_keep.
Qed.

Lemma loop_body_bullet (st : pstate) (item : str) :
  bulleted_section st = true -> good_text item ->
  loop_body st (lit "- " ++ item) = Ok (append_text st item).
Proof.
  intros Hsec Hitem.
  apply good_text_facts in Hitem as (Hne & Hh & Hl & Hb & _ & _).
  assert (Hline : is_bullet (strip (lit "- " ++ item)) = true)
    by (rewrite (dash_line_strip _ Hl); reflexivity).
  rewrite (loop_body_content _ _ (bullet_not_header _ Hline)).
  rewrite (process_content_bulleted _ _ Hsec), Hline.
  unfold bullet_item. rewrite (dash_line_strip _ Hl).
  rewrite dash_line_lstrip;
    [| reflexivity | reflexivity
     | apply head_outside_markers; [apply incl_refl | assumption..]].
  rewrite (strip_keep _ Hh Hl).
  apply truthy_true in Hne. now rewrite Hne.
Qed.

Lemma scan_bullets (items : list str) :
  Forall good_text items ->
  forall st, bulleted_section st = true ->
  scan st (map (app (lit "- ")) items) = Ok (extend_text st items).
Proof.
  induction 1 as [|item items Hitem Hitems IH]; intros st Hsec.
  - simpl. unfold extend_text. rewrite app_nil_r. now destruct st.
  - cbn [map]. rewrite scan_cons, (loop_body_bullet _ _ Hsec Hitem), bind_ok.
    rewrite IH by exact Hsec.
    unfold extend_text, append_text. cbn [result current_section current_text].
    now rewrite <- app_assoc.
Qed.

Lemma nonempty_items_id (items : list str) :
  Forall good_text items -> nonempty_items items = items.
Proof.
  unfold nonempty_items. induction 1 as [|t items Ht _ IH]; [reflexivity|].
  apply good_text_facts in Ht as (Hne & _). apply truthy_true in Hne.
  simpl. now rewrite Hne, IH.
Qed.

(** The keywords line: [", "]-joined keywords are the [","]-joined
    keywords, each but the first with a space before it. *)
Lemma join_comma_space (k : str) (rest : list str) :
  32%N :: join (lit ", ") (k :: rest)
  = join [COMMA] (map (cons 32%N) (k :: rest)).
Proof.
  revert k. induction rest as [|k2 rest IH]; intro k; [reflexivity|].
  change (join (lit ", ") (k :: k2 :: rest))
    with (k ++ COMMA :: 32%N :: join (lit ", ") (k2 :: rest)).
  rewrite IH. reflexivity.
Qed.

Lemma join_comma_pieces (k : str) (rest : list str) :
  join (lit ", ") (k :: rest) = join [COMMA] (k :: map (cons 32%N) rest).
Proof.
  destruct rest as [|k2 rest]; [reflexivity|].
  change (join (lit ", ") (k :: k2 :: rest))
    with (k ++ COMMA :: 32%N :: join (lit ", ") (k2 :: rest)).
  rewrite join_comma_space. reflexivity.
Qed.

Lemma strip_space_before (t : str) :
  head_outside isspace t -> last_outside isspace t ->
  strip (32%N :: t) = t.
Proof.
  intros Hh Hl. unfold strip. change (isspace 32%N) with true.
  cbn [lstrip_by]. change (if isspace 32%N then lstrip_by isspace t else 32%N :: t)
    with (lstrip_by isspace t).
  rewrite (lstrip_by_keep _ _ Hh). now apply rstrip_by_keep.
Qed.

Lemma keep_spaced_keywords (kws : list str) :
  Forall good_keyword kws ->
  map strip (filter (fun kw => truthy (strip kw)) (map (cons 32%N) kws)) = kws.
Proof.
  induction 1 as [|k kws [Hk _] _ IH]; [reflexivity|].
  apply good_text_facts in Hk as (Hne & Hh & Hl & _).
  cbn [map filter]. rewrite (strip_space_before _ Hh Hl).
  apply truthy_true in Hne. rewrite Hne. cbn [map].
  rewrite (strip_space_before _ Hh Hl). now rewrite IH.
Qed.

Lemma comma_keywords_joined (kws : list str) :
  kws <> [] -> Forall good_keyword kws ->
  comma_keywords (join (lit ", ") kws) = kws.
Proof.
  intros Hne H. destruct H as [|k rest [Hk Hcomma] Hrest]; [congruence|].
  unfold comma_keywords. change (lit ",") with [COMMA].
  rewrite join_comma_pieces, split_join_char; [|discriminate|].
  - apply good_text_facts in Hk as (Hkne & Hh & Hl & _).
    cbn [filter]. rewrite (strip_keep _ Hh Hl).
    apply truthy_true in Hkne. rewrite Hkne. cbn [map].
    rewrite (strip_keep _ Hh Hl). f_equal. now apply keep_spaced_keywords.
  - constructor; [assumption|].
    apply Forall_map. eapply Forall_impl; [|exact Hrest].
    intros t [_ Ht]. cbv beta.
    change (mem COMMA (32%N :: t)) with (N.eqb COMMA 32 || mem COMMA t).
    now rewrite Ht.
Qed.

Lemma join_edges (p : char -> bool) (sep : str) (parts : list str) :
  parts <> [] ->
  Forall (fun t => head_outside p t /\ last_outside p t) parts ->
  head_outside p (join sep parts) /\ last_outside p (join sep parts).
Proof.
  intros Hne H. induction H as [|t parts [Hh Hl] Hparts IH]; [congruence|].
  destruct parts as [|t2 parts]; [now split|].
  change (join sep (t :: t2 :: parts))
    with (t ++ sep ++ join sep (t2 :: parts)).
  split; [now apply head_outside_app|].
  rewrite app_assoc. apply last_outside_app. apply IH. discriminate.
Qed.

Lemma is_bullet_app (t b : str) :
  t <> [] -> is_bullet (t ++ b) = is_bullet t.
Proof. destruct t as [|c t]; [congruence|]. reflexivity. Qed.

Lemma join_starts_with_head (sep k : str) (rest : list str) :
  exists tail, join sep (k :: rest) = k ++ tail.
Proof.
  destruct rest as [|k2 rest].
  - exists []. simpl. now rewrite app_nil_r.
  - now exists (sep ++ join sep (k2 :: rest)).
Qed.

Lemma loop_body_keywords_line (st : pstate) (kws : list str) :
  in_section st S_extracted_keywords = true ->
  Forall good_keyword kws ->
  loop_body st (lit "- " ++ join (lit ", ") kws) = Ok (extend_text st kws).
Proof.
  intros Hsec H. apply in_section_eq in Hsec.
  destruct kws as [|k rest] eqn:E.
  - rewrite loop_body_content by reflexivity.
    unfold process_content. rewrite Hsec. reflexivity.
  - rewrite <- E in *.
    assert (Hne : kws <> []) by (rewrite E; discriminate).
    assert (Hedges : head_outside isspace (join (lit ", ") kws)
                     /\ last_outside isspace (join (lit ", ") kws)).
    { apply join_edges; [assumption|].
      eapply Forall_impl; [|exact H]. intros t [Ht _].
      apply good_text_facts in Ht. tauto. }
    destruct Hedges as [Hh Hl].
    assert (Hb : is_bullet (join (lit ", ") kws) = false).
    { rewrite E in *. destruct (join_starts_with_head (lit ", ") k rest) as [tail ->].
      inversion H as [|? ? [Hk _] _]; subst.
      apply good_text_facts in Hk as (Hkne & _ & _ & Hkb & _).
      now rewrite is_bullet_app. }
    assert (Hline : is_bullet (strip (lit "- " ++ join (lit ", ") kws)) = true)
      by (rewrite (dash_line_strip _ Hl); reflexivity).
    rewrite (loop_body_content _ _ (bullet_not_header _ Hline)).
    unfold process_content. rewrite Hsec, (dash_line_strip _ Hl).
    change (startswith (lit "-") (lit "- " ++ join (lit ", ") kws)) with true.
    cbv iota.
    rewrite dash_line_lstrip;
      [| reflexivity | reflexivity | apply head_outside_markers; try assumption].
    + rewrite (strip_keep _ Hh Hl). now rewrite comma_keywords_joined.
    + intros x [<-|[<-|[]]]; cbn; auto.
Qed.

Lemma loop_body_next_header
    (res : InsightRecord) (previous : section) (text : list str)
    (hdr : str) (sec : section) :
  header_of (strip hdr) = Some sec ->
  saved_by sec = Some previous ->
  loop_body (mkState res (Some previous) text) hdr
  = Ok (mkState (save_final_section (mkState res (Some previous) text))
                (Some sec) (seed_of sec (strip hdr))).
Proof.
  intros Hh Hs. rewrite (loop_body_header _ _ _ Hh).
  unfold saved_result. rewrite Hs.
  replace (in_section (mkState res (Some previous) text) previous) with true
    by (now destruct previous).
  reflexivity.
Qed.

Lemma scan_summary_block (s : str) :
  good_text s ->
  scan initial_state [HDR_SUMMARY; s; []]
  = Ok (mkState empty_result (Some S_insight_summary) [s]).
Proof.
  intro Hs. apply good_text_facts in Hs as (Hne & Hh & Hl & _ & Hhd & _).
  rewrite scan_cons.
  rewrite (loop_body_header _ HDR_SUMMARY S_insight_summary eq_refl), bind_ok.
  change (mkState (saved_result initial_state S_insight_summary)
                  (Some S_insight_summary)
                  (seed_of S_insight_summary (strip HDR_SUMMARY)))
    with (mkState empty_result (Some S_insight_summary) []).
  rewrite scan_cons, loop_body_content, bind_ok
    by (now rewrite (strip_keep _ Hh Hl)).
  unfold process_content. cbn [current_section].
  rewrite (strip_keep _ Hh Hl). apply truthy_true in Hne. rewrite Hne.
  rewrite scan_cons, loop_body_blank, bind_ok. reflexivity.
Qed.

(** Saving a list section whose field is still empty stores the buffer. *)
Lemma save_items (items : list str) (f : list str -> InsightRecord) :
  Forall good_text items ->
  (if truthy items then f (nonempty_items items) else f []) = f items.
Proof.
  intro H. rewrite (nonempty_items_id _ H). now destruct items.
Qed.

Lemma scan_serialized (s : str) (ki nm pa kws : list str) :
  good_text s ->
  Forall good_text ki -> Forall good_text nm -> Forall good_text pa ->
  Forall good_keyword kws ->
  scan initial_state (serialize_lines (mkInsight s ki nm pa kws))
  = Ok (mkState (mkInsight s ki nm pa []) (Some S_extracted_keywords) kws).
Proof.
  intros Hs Hki Hnm Hpa Hkws. unfold serialize_lines.
  cbn [insight_summary key_innovations novel_methods potential_applications
       extracted_keywords].
  rewrite scan_app, (scan_summary_block _ Hs), bind_ok.
  assert (Hsum : save_final_section
                   (mkState empty_result (Some S_insight_summary) [s])
                 = mkInsight s [] [] [] []).
  { apply good_text_facts in Hs as (_ & Hh & Hl & _).
    unfold save_final_section.
    cbn [current_text current_section result truthy join].
    now rewrite (strip_keep _ Hh Hl). }
  rewrite scan_cons.
  rewrite (loop_body_next_header _ S_insight_summary _ HDR_INNOVATIONS
             S_key_innovations eq_refl eq_refl), bind_ok.
  rewrite Hsum. cbn [seed_of].
  rewrite scan_app, scan_bullets, bind_ok by (assumption || reflexivity).
  unfold extend_text at 1. cbn [result current_section current_text app].
  rewrite scan_cons, loop_body_blank, bind_ok.
  rewrite scan_cons.
  rewrite (loop_body_next_header _ S_key_innovations _ HDR_METHODS_LONG
             S_novel_methods eq_refl eq_refl), bind_ok.
  rewrite (save_items ki (fun l => mkInsight s l [] [] []) Hki
           : save_final_section
               (mkState (mkInsight s [] [] [] []) (Some S_key_innovations) ki)
             = mkInsight s ki [] [] []).
  cbn [seed_of].
  rewrite scan_app, scan_bullets, bind_ok by (assumption || reflexivity).
  unfold extend_text at 1. cbn [result current_section current_text app].
  rewrite scan_cons, loop_body_blank, bind_ok.
  rewrite scan_cons.
  rewrite (loop_body_next_header _ S_novel_methods _ HDR_APPLICATIONS
             S_potential_applications eq_refl eq_refl), bind_ok.
  rewrite (save_items nm (fun l => mkInsight s ki l [] []) Hnm
           : save_final_section
               (mkState (mkInsight s ki [] [] []) (Some S_novel_methods) nm)
             = mkInsight s ki nm [] []).
  cbn [seed_of].
  rewrite scan_app, scan_bullets, bind_ok by (assumption || reflexivity).
  unfold extend_text at 1. cbn [result current_section current_text app].
  rewrite scan_cons, loop_body_blank, bind_ok.
  rewrite scan_cons.
  rewrite (loop_body_next_header _ S_potential_applications _ HDR_KEYWORDS
             S_extracted_keywords eq_refl eq_refl), bind_ok.
  rewrite (save_items pa (fun l => mkInsight s ki nm l []) Hpa
           : save_final_section
               (mkState (mkInsight s ki nm [] [])
                        (Some S_potential_applications) pa)
             = mkInsight s ki nm pa []).
  cbn [seed_of].
  rewrite scan_cons, loop_body_keywords_line, bind_ok
    by (assumption || reflexivity).
  unfold extend_text. cbn [result current_section current_text app].
  rewrite scan_cons, loop_body_blank, bind_ok. reflexivity.
Qed.

Lemma dash_lines_no_newline (items : list str) :
  Forall good_text items ->
  Forall (fun t => mem LF t = false) (map (app (lit "- ")) items).
Proof.
  intro H. apply Forall_map. eapply Forall_impl; [|exact H].
  intros t Ht. apply good_text_facts in Ht as (_ & _ & _ & _ & _ & Hlf).
  now rewrite mem_app, Hlf.
Qed.

Lemma serialize_lines_no_newline (s : str) (ki nm pa kws : list str) :
  good_text s ->
  Forall good_text ki -> Forall good_text nm -> Forall good_text pa ->
  Forall good_keyword kws ->
  Forall (fun t => mem LF t = false)
         (serialize_lines (mkInsight s ki nm pa kws)).
Proof.
  intros Hs Hki Hnm Hpa Hkws. unfold serialize_lines.
  cbn [insight_summary key_innovations novel_methods potential_applications
       extracted_keywords].
  assert (Hline : mem LF (lit "- " ++ join (lit ", ") kws) = false).
  { rewrite mem_app, mem_join; [reflexivity | reflexivity |].
    eapply Forall_impl; [|exact Hkws]. intros t [Ht _].
    apply good_text_facts in Ht. tauto. }
  apply good_text_facts in Hs as (_ & _ & _ & _ & _ & Hlf).
  repeat first
    [ apply Forall_app; split
    | apply Forall_cons; [first [reflexivity | assumption]|]
    | apply Forall_nil
    | now apply dash_lines_no_newline ].
Qed.

Lemma roundtrip_hypotheses (r : InsightRecord) :
  collision_free r = true -> canonical r = true ->
  good_text (insight_summary r)
  /\ Forall good_text (key_innovations r)
  /\ Forall good_text (novel_methods r)
  /\ Forall good_text (potential_applications r)
  /\ Forall good_keyword (extracted_keywords r)
  /\ List.length (extracted_keywords r) <= 8.
Proof.
  unfold collision_free, canonical. intros Hc Hk.
  apply andb_true_iff in Hc as [Hfields Hcomma].
  apply andb_true_iff in Hk as [Htrim Hlen].
  apply Nat.leb_le in Hlen.
  assert (G : forall t, In t (text_fields r) -> good_text t).
  { intros t Ht.
    pose proof (proj1 (forallb_forall _ _) Hfields t Ht) as H1.
    pose proof (proj1 (forallb_forall _ _) Htrim t Ht) as H2.
    apply andb_true_iff in H1 as [Hp Hlf]. apply negb_true_iff in Hlf.
    now repeat split. }
  unfold text_fields in G.
  split; [apply G; now left|].
  split.
  { apply Forall_forall. intros t Ht. apply G. right.
    apply in_or_app. now left. }
  split.
  { apply Forall_forall. intros t Ht. apply G. right.
    apply in_or_app. right. apply in_or_app. now left. }
  split.
  { apply Forall_forall. intros t Ht. apply G. right.
    do 2 (apply in_or_app; right). apply in_or_app. now left. }
  split; [|exact Hlen].
  apply Forall_forall. intros t Ht. split.
  - apply G. right. do 3 (apply in_or_app; right). exact Ht.
  - pose proof (proj1 (forallb_forall _ _) Hcomma t Ht) as H.
    now apply negb_true_iff in H.
Qed.

(** C9, as stated, fails even on records the parser itself returns: the
    fallback cuts a paragraph at 500 characters and may leave a space at the
    end of the summary; the record has no colliding character, yet parsing
    its serialization trims the summary. *)
Lemma roundtrip_counterexample :
  _parse_structured_output long_paragraph = Ok truncated_record
  /\ collision_free truncated_record = true
  /\ _parse_structured_output (serialize truncated_record)
     = Ok (mkInsight (repeat 97%N 499) [] [] [] [])
  /\ mkInsight (repeat 97%N 499) [] [] [] [] <> truncated_record.
Proof.
  split; [vm_compute; reflexivity|].
  split; [vm_compute; reflexivity|].
  split; [vm_compute; reflexivity|].
  intro H. apply (f_equal (fun r => List.length (insight_summary r))) in H.
  vm_compute in H. discriminate.
Qed.

(** C9, amended.  Parsing the serialization of a record gives the record
    back when, besides holding no colliding character (no text beginning
    with [-], [*] or a header, no newline, no comma in a keyword), the
    record is canonical: every text in it is non-empty and has no leading or
    trailing whitespace, and there are at most eight keywords. *)
Theorem serialize_parse_roundtrip (r : InsightRecord) :
  collision_free r = true ->
  canonical r = true ->
  _parse_structured_output (serialize r) = Ok r.
Proof.
  intros Hc Hk.
  destruct (roundtrip_hypotheses r Hc Hk)
    as (Hs & Hki & Hnm & Hpa & Hkws & Hlen).
  destruct r as [s ki nm pa kws].
  cbn [insight_summary key_innovations novel_methods potential_applications
       extracted_keywords] in *.
  unfold _parse_structured_output, serialize, unlines.
  rewrite split_join_char;
    [| discriminate | now apply serialize_lines_no_newline].
  rewrite scan_serialized, bind_ok by assumption.
  assert (Hsave : save_final_section
                    (mkState (mkInsight s ki nm pa [])
                             (Some S_extracted_keywords) kws)
                  = mkInsight s ki nm pa kws).
  { unfold save_final_section, set_extracted_keywords.
    cbn [current_text current_section result insight_summary key_innovations
         novel_methods potential_applications].
    rewrite firstn_all2 by exact Hlen. now destruct kws. }
  rewrite Hsave.
  apply good_text_facts in Hs as (Hne & _). apply truthy_true in Hne.
  unfold fallback_summary. cbn [insight_summary]. rewrite Hne. cbn [negb].
  rewrite bind_ok. unfold ensure_summary. cbn [insight_summary].
  now rewrite Hne.
Qed.

Lemma serialize_parse_roundtrip_witness :
  collision_free example_record = true
  /\ canonical example_record = true
  /\ _parse_structured_output (serialize example_record) = Ok example_record.
Proof.
  split; [reflexivity|]. split; [reflexivity|].
  exact (serialize_parse_roundtrip example_record eq_refl eq_refl).
Defined.

(* ------------------------------------------------------------------ *)
(** * The example of the specification *)
(* ------------------------------------------------------------------ *)

(** C1.  The five-section response of the specification parses to exactly
    the record the specification gives. *)
Theorem parse_example_response :
  _parse_structured_output example_response = Ok example_record.
Proof. vm_compute. reflexivity. Qed.

(* ------------------------------------------------------------------ *)
(** * What the parsed lists hold *)
(* ------------------------------------------------------------------ *)

Lemma lstrip_by_split (p : char -> bool) (s : str) :
  exists pre, s = pre ++ lstrip_by p s /\ forallb p pre = true.
Proof.
  induction s as [|c s (pre & Hs & Hpre)]; [now exists []|].
  simpl. destruct (p c) eqn:E.
  - exists (c :: pre). simpl. rewrite E, Hpre. split; [now f_equal | reflexivity].
  - now exists [].
Qed.

Lemma lstrip_by_head (p : char -> bool) (s : str) :
  lstrip_by p s = [] \/ head_outside p (lstrip_by p s).
Proof.
  induction s as [|c s IH]; [now left|].
  simpl. destruct (p c) eqn:E; [exact IH | now right].
Qed.

Lemma rstrip_by_split (p : char -> bool) (s : str) :
  exists suf, s = rstrip_by p s ++ suf /\ forallb p suf = true.
Proof.
  unfold rstrip_by. destruct (lstrip_by_split p (rev s)) as (pre & Hs & Hpre).
  exists (rev pre). split.
  - rewrite <- rev_app_distr, <- Hs. now rewrite rev_involutive.
  - rewrite forallb_forall in *. intros x Hx. apply Hpre. now apply in_rev.
Qed.

Lemma rstrip_by_last (p : char -> bool) (s : str) :
  rstrip_by p s = [] \/ last_outside p (rstrip_by p s).
Proof.
  unfold rstrip_by, last_outside. rewrite rev_involutive.
  destruct (lstrip_by_head p (rev s)) as [-> | H]; [now left | now right].
Qed.

(** A trimmed text is empty or begins and ends outside the whitespace. *)
Lemma strip_edges (s : str) :
  strip s = []
  \/ (head_outside isspace (strip s) /\ last_outside isspace (strip s)).
Proof.
  unfold strip.
  destruct (rstrip_by_last isspace (lstrip_by isspace s)) as [E | Hl];
    [now left | right].
  split; [|exact Hl].
  destruct (rstrip_by_split isspace (lstrip_by isspace s)) as (suf & Hs & _).
  destruct (lstrip_by_head isspace s) as [E | Hh].
  - rewrite E in *. now destruct (rstrip_by isspace []).
  - rewrite Hs in Hh.
    destruct (rstrip_by isspace (lstrip_by isspace s)); [exact Hl | exact Hh].
Qed.

Lemma strip_idempotent (s : str) : strip (strip s) = strip s.
Proof.
  destruct (strip_edges s) as [-> | [Hh Hl]]; [reflexivity|].
  now apply strip_keep.
Qed.

Lemma str_eqb_refl (a : str) : str_eqb a a = true.
Proof. induction a as [|x a IH]; simpl; [|rewrite N.eqb_refl]; auto. Qed.

Lemma trimmed_strip_result (s : str) :
  truthy (strip s) = true -> trimmed (strip s) = true.
Proof.
  intro H. unfold trimmed. rewrite H, strip_idempotent. apply str_eqb_refl.
Qed.

Lemma trimmed_spec (t : str) :
  trimmed t = true <-> t <> [] /\ strip t = t.
Proof.
  split.
  - intro H. split; [now apply trimmed_edges in H | now apply trimmed_strip].
  - intros [Hne Heq]. unfold trimmed. apply truthy_true in Hne.
    rewrite Hne, Heq. apply str_eqb_refl.
Qed.

(** Trimming adds no character. *)
Lemma mem_strip (c : char) (s : str) :
  mem c s = false -> mem c (strip s) = false.
Proof.
  unfold strip. intro H.
  destruct (lstrip_by_split isspace s) as (pre & Hs & _).
  destruct (rstrip_by_split isspace (lstrip_by isspace s)) as (suf & Hx & _).
  rewrite Hx in Hs. rewrite Hs, !mem_app in H.
  apply orb_false_iff in H as [_ H]. now apply orb_false_iff in H as [H _].
Qed.

(** No piece of a split at a character holds the character. *)
Lemma split_char_pieces (c : char) (s : str) :
  Forall (fun piece => mem c piece = false) (split [c] s).
Proof.
  unfold split. induction s as [|x s IH]; [now repeat constructor|].
  cbn [split_from startswith andb option_map List.length Nat.pred].
  rewrite andb_true_r. destruct (N.eqb c x) eqn:E.
  - constructor; [reflexivity | exact IH].
  - destruct (split_from [c] None 0 s) as [|piece rest];
      [now repeat constructor; simpl; rewrite E|].
    inversion IH; subst. constructor; [|assumption].
    simpl. now rewrite E.
Qed.

Lemma comma_keywords_clean (text : str) :
  clean_items (comma_keywords text)
  /\ Forall (fun t => mem COMMA t = false) (comma_keywords text).
Proof.
  unfold comma_keywords, clean_items. change (lit ",") with [COMMA].
  pose proof (split_char_pieces COMMA text) as H.
  induction H as [|piece rest Hpiece _ [IH1 IH2]]; [now split|].
  cbn [filter]. destruct (truthy (strip piece)) eqn:E; [|now split].
  cbn [map]. split; constructor; auto using trimmed_strip_result, mem_strip.
Qed.

Lemma clean_items_app (a b : list str) :
  clean_items a -> clean_items b -> clean_items (a ++ b).
Proof. intros Ha Hb. apply Forall_app. now split. Qed.

Lemma clean_nonempty_items (l : list str) :
  clean_items l -> clean_items (nonempty_items l).
Proof.
  unfold clean_items, nonempty_items. intro H.
  apply Forall_forall. intros t Ht. apply filter_In in Ht as [Ht _].
  revert t Ht. now apply Forall_forall.
Qed.

Lemma in_firstn {A : Type} (n : nat) (l : list A) (x : A) :
  In x (firstn n l) -> In x l.
Proof.
  intro H. rewrite <- (firstn_skipn n l). apply in_or_app. now left.
Qed.

Lemma clean_firstn (n : nat) (l : list str) :
  clean_items l -> clean_items (firstn n l).
Proof.
  unfold clean_items. intro H. apply Forall_forall. intros t Ht.
  apply (proj1 (Forall_forall _ _) H). eapply in_firstn; eauto.
Qed.

Lemma save_final_section_clean (st : pstate) :
  clean_state st -> clean_lists (save_final_section st).
Proof.
  intros (Hbuf & Hki & Hnm & Hpa & Hkw). unfold save_final_section, clean_lists.
  repeat match goal with
         | |- context [if ?c then _ else _] => destruct c
         end;
    cbn [key_innovations novel_methods potential_applications
         extracted_keywords set_insight_summary set_key_innovations
         set_novel_methods set_potential_applications set_extracted_keywords];
    auto using clean_nonempty_items, clean_firstn.
Qed.

Lemma seed_of_clean (sec : section) (line : str) : clean_items (seed_of sec line).
Proof.
  unfold seed_of, clean_items. destruct sec; try constructor.
  cbv zeta.
  destruct (truthy (strip (skipn (List.length HDR_SUMMARY) line))) eqn:E;
    [|constructor].
  constructor; [now apply trimmed_strip_result | constructor].
Qed.

Lemma process_content_clean (st : pstate) (line : str) :
  clean_state st -> clean_state (process_content st (strip line)).
Proof.
  intros (Hbuf & Hres). unfold process_content, clean_state.
  destruct (current_section st) as [[]|];
    repeat match goal with
           | |- context [if ?c then _ else _] => destruct c eqn:?
           end;
    unfold append_text, extend_text; cbn [current_text result];
    (split; [|exact Hres]); try exact Hbuf;
    apply clean_items_app; try exact Hbuf;
    try apply comma_keywords_clean;
    repeat constructor; auto using trimmed_strip_result.
Qed.

Lemma loop_body_clean (st st' : pstate) (line : str) :
  clean_state st -> loop_body st line = Ok st' -> clean_state st'.
Proof.
  intros Hst. destruct (header_of (strip line)) as [sec|] eqn:E.
  - rewrite (loop_body_header _ _ _ E). intros [= <-].
    split; cbn [current_text result]; [apply seed_of_clean|].
    unfold saved_result. destruct (saved_by sec); [|apply Hst].
    destruct (in_section st s); [now apply save_final_section_clean | apply Hst].
  - rewrite (loop_body_content _ _ E). intros [= <-].
    now apply process_content_clean.
Qed.

Lemma scan_clean (lines : list str) :
  forall st st', clean_state st -> scan st lines = Ok st' -> clean_state st'.
Proof.
  induction lines as [|line rest IH]; simpl; intros st st' Hst H.
  - now injection H as <-.
  - destruct (loop_body st line) as [st1|] eqn:E; simpl in H; [|discriminate].
    eapply IH; [|exact H]. eapply loop_body_clean; eauto.
Qed.

Lemma initial_state_clean : clean_state initial_state.
Proof. repeat split; constructor. Qed.

(** The lists of a parsed record are the lists the final save leaves. *)
Lemma parse_lists (raw_output : str) :
  exists st r,
    scan initial_state (split [LF] raw_output) = Ok st
    /\ _parse_structured_output raw_output = Ok r
    /\ key_innovations r = key_innovations (save_final_section st)
    /\ novel_methods r = novel_methods (save_final_section st)
    /\ potential_applications r
       = potential_applications (save_final_section st)
    /\ extracted_keywords r = extracted_keywords (save_final_section st).
Proof.
  unfold _parse_structured_output.
  destruct (scan_total (split [LF] raw_output) initial_state) as [st Hst].
  rewrite Hst, bind_ok.
  destruct (fallback_summary_total raw_output (save_final_section st)) as [r Hr].
  rewrite Hr, bind_ok.
  exists st, (ensure_summary r). split; [reflexivity|]. split; [reflexivity|].
  destruct (ensure_summary_lists r) as (-> & -> & -> & ->).
  exact (fallback_summary_lists _ _ _ Hr).
Qed.

(** X1.  On every input, each entry of [key_innovations], [novel_methods]
    and [potential_applications] of the parsed record is non-empty and has
    no leading or trailing whitespace. *)
Theorem parsed_items_trimmed (raw_output : str) :
  exists r : InsightRecord,
    _parse_structured_output raw_output = Ok r
    /\ forall item,
         In item (key_innovations r ++ novel_methods r
                    ++ potential_applications r) ->
         item <> [] /\ strip item = item.
Proof.
  destruct (parse_lists raw_output) as (st & r & Hst & Hr & Hki & Hnm & Hpa & _).
  exists r. split; [exact Hr|]. intros item Hin.
  pose proof (save_final_section_clean st
                (scan_clean _ _ _ initial_state_clean Hst))
    as (Cki & Cnm & Cpa & _).
  rewrite Hki, Hnm, Hpa in Hin. apply trimmed_spec.
  assert (C : clean_items (key_innovations (save_final_section st)
                             ++ novel_methods (save_final_section st)
                             ++ potential_applications (save_final_section st)))
    by (repeat apply clean_items_app; assumption).
  exact (proj1 (Forall_forall _ _) C item Hin).
Qed.

Lemma process_content_comma_free (st : pstate) (line : str) :
  comma_free_buffer st -> comma_free_buffer (process_content st line).
Proof.
  unfold comma_free_buffer, process_content. intro H.
  destruct (current_section st) as [[]|] eqn:E;
    repeat match goal with
           | |- context [if ?c then _ else _] => destruct c
           end;
    unfold append_text, extend_text; cbn [current_text current_section];
    rewrite ?E; try discriminate; try exact H;
    intros _; apply Forall_app; (split; [now apply H|]);
    apply comma_keywords_clean.
Qed.

Lemma loop_body_comma_free (st st' : pstate) (line : str) :
  comma_free_buffer st -> loop_body st line = Ok st' -> comma_free_buffer st'.
Proof.
  intros Hst. destruct (header_of (strip line)) as [sec|] eqn:E.
  - rewrite (loop_body_header _ _ _ E). intros [= <-].
    unfold comma_free_buffer. cbn [current_section current_text].
    intros [= ->]. constructor.
  - rewrite (loop_body_content _ _ E). intros [= <-].
    now apply process_content_comma_free.
Qed.

Lemma scan_comma_free (lines : list str) :
  forall st st',
    comma_free_buffer st -> scan st lines = Ok st' -> comma_free_buffer st'.
Proof.
  induction lines as [|line rest IH]; simpl; intros st st' Hst H.
  - now injection H as <-.
  - destruct (loop_body st line) as [st1|] eqn:E; simpl in H; [|discriminate].
    eapply IH; [|exact H]. eapply loop_body_comma_free; eauto.
Qed.

Lemma save_final_section_comma_free (st : pstate) :
  comma_free_buffer st ->
  extracted_keywords (result st) = [] ->
  Forall (fun t => mem COMMA t = false)
         (extracted_keywords (save_final_section st)).
Proof.
  intros Hbuf Hkw. unfold save_final_section.
  destruct (in_section st S_insight_summary && truthy (current_text st));
    [simpl; rewrite Hkw; constructor|].
  destruct (in_section st S_key_innovations && truthy (current_text st));
    [simpl; rewrite Hkw; constructor|].
  destruct (in_section st S_novel_methods && truthy (current_text st));
    [simpl; rewrite Hkw; constructor|].
  destruct (in_section st S_potential_applications && truthy (current_text st));
    [simpl; rewrite Hkw; constructor|].
  destruct (in_section st S_extracted_keywords && truthy (current_text st))
    eqn:E; [|rewrite Hkw; constructor].
  apply andb_true_iff in E as [E _]. apply in_section_eq in E.
  cbn [extracted_keywords set_extracted_keywords].
  apply Forall_forall. intros t Ht.
  apply (proj1 (Forall_forall _ _) (Hbuf E)). eapply in_firstn; eauto.
Qed.

(** X2.  On every input, each entry of [extracted_keywords] of the parsed
    record is non-empty, has no leading or trailing whitespace and holds no
    comma. *)
Theorem parsed_keywords_clean (raw_output : str) :
  exists r : InsightRecord,
    _parse_structured_output raw_output = Ok r
    /\ forall kw,
         In kw (extracted_keywords r) ->
         kw <> [] /\ strip kw = kw /\ mem COMMA kw = false.
Proof.
  destruct (parse_lists raw_output) as (st & r & Hst & Hr & _ & _ & _ & Hkw).
  exists r. split; [exact Hr|]. intros kw Hin. rewrite Hkw in Hin.
  pose proof (save_final_section_clean st
                (scan_clean _ _ _ initial_state_clean Hst))
    as (_ & _ & _ & Ckw).
  assert (Hfree : comma_free_buffer initial_state) by discriminate.
  pose proof (save_final_section_comma_free st
                (scan_comma_free _ _ _ Hfree Hst)
                (scan_keeps_keywords _ _ _ Hst)) as Cfree.
  rewrite <- and_assoc. split.
  - apply trimmed_spec. exact (proj1 (Forall_forall _ _) Ckw kw Hin).
  - exact (proj1 (Forall_forall _ _) Cfree kw Hin).
Qed.

(* ------------------------------------------------------------------ *)
(** * Blank texts *)
(* ------------------------------------------------------------------ *)

Lemma lstrip_by_all (p : char -> bool) (s : str) :
  forallb p s = true <-> lstrip_by p s = [].
Proof.
  induction s as [|c s IH]; simpl; [tauto|].
  destruct (p c); simpl; [exact IH | split; discriminate].
Qed.

Lemma forallb_rev (p : char -> bool) (s : str) :
  forallb p (rev s) = forallb p s.
Proof.
  destruct (forallb p s) eqn:E.
  - rewrite forallb_forall in *. intros x Hx. apply E. now apply in_rev.
  - destruct (forallb p (rev s)) eqn:E'; [|reflexivity].
    rewrite <- E. symmetry. rewrite forallb_forall in *.
    intros x Hx. apply E'. now apply in_rev in Hx.
Qed.

(** A text trims to nothing exactly when it is all whitespace. *)
Lemma strip_blank (s : str) : strip s = [] <-> forallb isspace s = true.
Proof.
  unfold strip, rstrip_by. split.
  - intro H. apply (f_equal (@rev char)) in H. rewrite rev_involutive in H.
    apply lstrip_by_all in H. rewrite forallb_rev in H.
    destruct (lstrip_by_head isspace s) as [E | Hh].
    + now apply lstrip_by_all.
    + destruct (lstrip_by isspace s) as [|c t]; [now apply lstrip_by_all|].
      simpl in *. rewrite Hh in H. discriminate.
  - intro H. apply lstrip_by_all in H. now rewrite H.
Qed.

(** The pieces of a split hold characters of the text only. *)
Lemma split_from_chars (P : char -> Prop) (sep : str) (s : str) :
  Forall P s ->
  forall maxsplit skip,
    Forall (Forall P) (split_from sep maxsplit skip s).
Proof.
  induction 1 as [|c s Hc Hs IH]; intros maxsplit skip;
    [now repeat constructor|].
  cbn [split_from]. destruct skip as [|k]; [|apply IH].
  destruct (_ && startswith sep (c :: s)).
  - constructor; [constructor | apply IH].
  - specialize (IH maxsplit 0).
    destruct (split_from sep maxsplit 0 s) as [|piece rest];
      [now repeat constructor|].
    inversion IH; subst. repeat constructor; assumption.
Qed.

Lemma blank_pieces (sep s : str) (piece : str) :
  strip s = [] -> In piece (split sep s) -> strip piece = [].
Proof.
  intros H Hin. apply strip_blank in H. apply strip_blank.
  rewrite forallb_forall in *. apply Forall_forall in H.
  pose proof (split_from_chars _ sep s H None 0) as Hall.
  exact (proj1 (Forall_forall _ _) (proj1 (Forall_forall _ _) Hall piece Hin)).
Qed.

Lemma filter_none {A : Type} (f : A -> bool) (l : list A) :
  (forall x, In x l -> f x = false) -> filter f l = [].
Proof.
  induction l as [|x l IH]; intro H; [reflexivity|].
  simpl. rewrite (H x) by now left. apply IH. intros y Hy. apply H. now right.
Qed.

(** X3.  A raw text that is empty or all whitespace parses to the
    placeholder record: the fixed summary and four empty lists. *)
Theorem blank_text_placeholder (raw_output : str) :
  strip raw_output = [] ->
  _parse_structured_output raw_output
  = Ok (mkInsight (lit "Unable to generate insight summary.") [] [] [] []).
Proof.
  intro H. unfold _parse_structured_output.
  rewrite scan_without_headers, bind_ok.
  - change (save_final_section initial_state) with empty_result.
    unfold fallback_summary, paragraphs_of.
    rewrite filter_none; [reflexivity|].
    intros p Hp. now rewrite (blank_pieces _ _ _ H Hp).
  - apply forallb_forall. intros line Hline.
    now rewrite (blank_pieces _ _ _ H Hline).
Qed.

Lemma blank_text_placeholder_witness :
  strip [32; 10; 9; 32; 10; 10; 160; 32]%N = []
  /\ _parse_structured_output [32; 10; 9; 32; 10; 10; 160; 32]%N
     = Ok (mkInsight (lit "Unable to generate insight summary.") [] [] [] []).
Proof.
  split; [reflexivity|].
  exact (blank_text_placeholder [32; 10; 9; 32; 10; 10; 160; 32]%N eq_refl).
Defined.

(* ------------------------------------------------------------------ *)
(** * Text around the sections *)
(* ------------------------------------------------------------------ *)

Lemma parse_of_lines (lines : list str) :
  lines <> [] ->
  Forall (fun line => mem LF line = false) lines ->
  _parse_structured_output (unlines lines)
  = (st <- scan initial_state lines ;;
     r <- fallback_summary (unlines lines) (save_final_section st) ;;
     Ok (ensure_summary r)).
Proof.
  intros Hne Hlf. unfold _parse_structured_output, unlines.
  now rewrite split_join_char.
Qed.

Lemma fallback_summary_unused (raw_output : str) (r : InsightRecord) :
  insight_summary r <> [] ->
  fallback_summary raw_output r = Ok r /\ ensure_summary r = r.
Proof.
  intro H. apply truthy_true in H.
  unfold fallback_summary, ensure_summary. now rewrite H.
Qed.

Lemma newline_free_spec (lines : list str) :
  newline_free lines = true ->
  Forall (fun line => mem LF line = false) lines.
Proof.
  unfold newline_free. intro H. apply Forall_forall. intros line Hin.
  apply negb_true_iff. revert line Hin. now apply forallb_forall.
Qed.

(** X4.  Lines before the first header are ignored: when the lines from
    the first header on fill the summary, putting header-free lines in front
    of them does not change the parsed record. *)
Theorem preamble_ignored (preamble body : list str) (st : pstate) :
  newline_free (preamble ++ body) = true ->
  header_free preamble = true ->
  scan initial_state body = Ok st ->
  insight_summary (save_final_section st) <> [] ->
  _parse_structured_output (unlines (preamble ++ body))
  = Ok (save_final_section st)
  /\ _parse_structured_output (unlines body) = Ok (save_final_section st).
Proof.
  intros Hlf Hfree Hscan Hsum. apply newline_free_spec in Hlf.
  assert (Hbody : body <> []).
  { intros ->. injection Hscan as <-. now apply Hsum. }
  destruct (fallback_summary_unused (unlines (preamble ++ body)) _ Hsum)
    as [F1 E1].
  destruct (fallback_summary_unused (unlines body) _ Hsum) as [F2 _].
  split.
  - rewrite parse_of_lines; [|now destruct preamble, body | exact Hlf].
    rewrite scan_app, (scan_without_headers _ Hfree), bind_ok.
    now rewrite Hscan, bind_ok, F1, bind_ok, E1.
  - rewrite parse_of_lines;
      [|exact Hbody | now apply Forall_app in Hlf].
    now rewrite Hscan, bind_ok, F2, bind_ok, E1.
Qed.

Lemma preamble_ignored_witness :
  let preamble := [lit "Sure, here is the analysis:"; []] in
  let body := [lit "Insight Summary: Faster cells."; lit "Key Innovations:";
               lit "- New anode"] in
  let st := mkState (mkInsight (lit "Faster cells.") [] [] [] [])
                    (Some S_key_innovations) [lit "New anode"] in
  newline_free (preamble ++ body) = true
  /\ header_free preamble = true
  /\ scan initial_state body = Ok st
  /\ insight_summary (save_final_section st) <> []
  /\ _parse_structured_output (unlines (preamble ++ body))
     = Ok (mkInsight (lit "Faster cells.") [lit "New anode"] [] [] []).
Proof.
  assert (H : insight_summary
                (save_final_section
                   (mkState (mkInsight (lit "Faster cells.") [] [] [] [])
                            (Some S_key_innovations) [lit "New anode"]))
              <> []) by (vm_compute; discriminate).
  repeat (split; [first [reflexivity | exact H]|]).
  exact (proj1 (preamble_ignored
                  [lit "Sure, here is the analysis:"; []]
                  [lit "Insight Summary: Faster cells."; lit "Key Innovations:";
                   lit "- New anode"]
                  (mkState (mkInsight (lit "Faster cells.") [] [] [] [])
                           (Some S_key_innovations) [lit "New anode"])
                  eq_refl eq_refl eq_refl H)).
Defined.

(* ------------------------------------------------------------------ *)
(** * The summary section *)
(* ------------------------------------------------------------------ *)

Lemma lstrip_by_past (p : char -> bool) (pre s : str) :
  forallb p pre = true -> lstrip_by p (pre ++ s) = lstrip_by p s.
Proof.
  induction pre as [|c pre IH]; simpl; [reflexivity|].
  intro H. apply andb_true_iff in H as [Hc Hpre]. rewrite Hc. now apply IH.
Qed.

(** The trimmed text is the core of a text: what is left between a
    whitespace prefix and a whitespace suffix, when it is empty or begins
    and ends outside the whitespace. *)
Lemma strip_core (pre core suf : str) :
  forallb isspace pre = true -> forallb isspace suf = true ->
  core = [] \/ (head_outside isspace core /\ last_outside isspace core) ->
  strip (pre ++ core ++ suf) = core.
Proof.
  intros Hpre Hsuf Hcore. unfold strip. rewrite (lstrip_by_past _ _ _ Hpre).
  destruct Hcore as [-> | [Hh Hl]].
  - simpl. apply lstrip_by_all in Hsuf. rewrite Hsuf. reflexivity.
  - rewrite (lstrip_by_keep _ _ (head_outside_app _ _ _ Hh)).
    unfold rstrip_by. rewrite rev_app_distr, lstrip_by_past
      by now rewrite forallb_rev.
    rewrite (lstrip_by_keep _ _ Hl). apply rev_involutive.
Qed.

Lemma last_outside_tail (p : char -> bool) (pre t : str) :
  t <> [] -> last_outside p (pre ++ t) -> last_outside p t.
Proof.
  unfold last_outside. rewrite rev_app_distr. intros Hne H.
  destruct (rev t) as [|d u] eqn:E; [|exact H].
  destruct Hne. rewrite <- (rev_involutive t), E. reflexivity.
Qed.

(** Trimming on the right first does not change the trimmed text. *)
Lemma strip_rstrip (s : str) : strip (rstrip_by isspace s) = strip s.
Proof.
  destruct (rstrip_by_split isspace s) as (suf & Hs & Hsuf).
  destruct (lstrip_by_split isspace (rstrip_by isspace s)) as (pre & Hy & Hpre).
  set (z := lstrip_by isspace (rstrip_by isspace s)) in *.
  assert (Hz : z = [] \/ (head_outside isspace z /\ last_outside isspace z)).
  { destruct (lstrip_by_head isspace (rstrip_by isspace s)) as [E | Hh];
      [now left | right]. fold z in Hh. split; [exact Hh|].
    destruct (rstrip_by_last isspace s) as [E | Hl].
    - rewrite E in Hy. now destruct pre, z.
    - rewrite Hy in Hl. apply (last_outside_tail _ pre); [|exact Hl].
      intros E. now rewrite E in Hh. }
  rewrite Hs at 2. rewrite Hy at 1 2.
  rewrite <- (app_nil_r z) at 1.
  rewrite (strip_core pre z [] Hpre eq_refl Hz).
  rewrite <- app_assoc. now rewrite (strip_core pre z suf Hpre Hsuf Hz).
Qed.

Lemma lstrip_by_app_keep (p : char -> bool) (a b : str) :
  head_outside p b -> lstrip_by p (a ++ b) = lstrip_by p a ++ b.
Proof.
  intro Hb. induction a as [|c a IH]; simpl; [now apply lstrip_by_keep|].
  destruct (p c); [exact IH | reflexivity].
Qed.

Lemma rstrip_by_app_keep (p : char -> bool) (a b : str) :
  last_outside p a -> rstrip_by p (a ++ b) = a ++ rstrip_by p b.
Proof.
  intro Ha. unfold rstrip_by.
  rewrite rev_app_distr, (lstrip_by_app_keep _ _ _ Ha), rev_app_distr.
  now rewrite rev_involutive.
Qed.

Lemma skipn_past {A : Type} (a b : list A) : skipn (List.length a) (a ++ b) = b.
Proof. induction a as [|x a IH]; simpl; auto. Qed.

(** The buffer a summary header line leaves is the trimmed text that
    follows the header on its line. *)
Lemma summary_header_seed (first : str) :
  seed_of S_insight_summary (strip (HDR_SUMMARY ++ first))
  = if truthy (strip first) then [strip first] else [].
Proof.
  unfold seed_of, strip at 2 4.
  rewrite (lstrip_by_keep isspace (HDR_SUMMARY ++ first)) by reflexivity.
  rewrite rstrip_by_app_keep by reflexivity.
  rewrite skipn_past, strip_rstrip. reflexivity.
Qed.

Lemma text_lines_clean (lines : list str) : clean_items (text_lines lines).
Proof.
  unfold text_lines, clean_items. apply Forall_forall. intros t Ht.
  apply filter_In in Ht as [Ht Hne]. apply in_map_iff in Ht as (l & <- & _).
  now apply trimmed_strip_result.
Qed.

(** In the summary section every non-blank line that is no header is
    buffered, trimmed. *)
Lemma scan_summary_lines (lines : list str) :
  header_free lines = true ->
  forall st, in_section st S_insight_summary = true ->
  scan st lines = Ok (extend_text st (text_lines lines)).
Proof.
  unfold header_free, text_lines.
  induction lines as [|line rest IH]; intros Hfree st Hsec.
  - simpl. unfold extend_text. rewrite app_nil_r. now destruct st.
  - cbn [forallb] in Hfree. apply andb_true_iff in Hfree as [Hline Hrest].
    destruct (header_of (strip line)) eqn:E; [discriminate|].
    rewrite scan_cons, (loop_body_content _ _ E), bind_ok.
    pose proof (proj1 (in_section_eq _ _) Hsec) as Hcur.
    unfold process_content. rewrite Hcur. cbn [map filter].
    destruct (truthy (strip line)).
    + rewrite IH by assumption.
      unfold extend_text, append_text.
      cbn [result current_section current_text]. now rewrite <- app_assoc.
    + now apply IH.
Qed.

(** A non-empty list of clean texts joins to a clean text. *)
Lemma join_clean (sep : str) (parts : list str) :
  parts <> [] -> clean_items parts ->
  join sep parts <> [] /\ strip (join sep parts) = join sep parts.
Proof.
  intros Hne H.
  assert (Hedges : head_outside isspace (join sep parts)
                   /\ last_outside isspace (join sep parts)).
  { apply join_edges; [assumption|].
    eapply Forall_impl; [|exact H]. intros t Ht.
    apply trimmed_edges in Ht. tauto. }
  destruct Hedges as [Hh Hl]. split; [|now apply strip_keep].
  intro E. rewrite E in Hh. exact Hh.
Qed.

(** X5.  A response that holds only the summary section (some text after
    the header on its line, header-free lines below) and in which at least
    one of these pieces is not blank, parses to the record whose lists are
    empty and whose summary is the non-blank pieces, each trimmed, joined
    by single spaces. *)
Theorem summary_only_response (first : str) (lines : list str) :
  newline_free (first :: lines) = true ->
  header_free lines = true ->
  text_lines (first :: lines) <> [] ->
  _parse_structured_output (unlines ((HDR_SUMMARY ++ first) :: lines))
  = Ok (mkInsight (join (lit " ") (text_lines (first :: lines))) [] [] [] []).
Proof.
  intros Hlf Hfree Hne. apply newline_free_spec in Hlf.
  inversion Hlf as [|? ? Hfirst Hlines]; subst.
  rewrite parse_of_lines;
    [| discriminate
     | constructor; [now rewrite mem_app, Hfirst | assumption]].
  assert (Hhdr : header_of (strip (HDR_SUMMARY ++ first))
                 = Some S_insight_summary).
  { unfold strip.
    rewrite (lstrip_by_keep isspace (HDR_SUMMARY ++ first)) by reflexivity.
    rewrite rstrip_by_app_keep by reflexivity. reflexivity. }
  rewrite scan_cons, (loop_body_header _ _ _ Hhdr), bind_ok.
  rewrite summary_header_seed.
  rewrite (scan_summary_lines _ Hfree) by reflexivity. rewrite bind_ok.
  unfold extend_text. cbn [result current_section current_text].
  change (saved_result initial_state S_insight_summary) with empty_result.
  replace ((if truthy (strip first) then [strip first] else [])
             ++ text_lines lines)
    with (text_lines (first :: lines))
    by (unfold text_lines; cbn [map filter];
        now destruct (truthy (strip first))).
  destruct (join_clean (lit " ") _ Hne (text_lines_clean (first :: lines)))
    as [Hjoin Hstrip].
  assert (Hsave : save_final_section
                    (mkState empty_result (Some S_insight_summary)
                             (text_lines (first :: lines)))
                  = mkInsight (join (lit " ") (text_lines (first :: lines)))
                              [] [] [] []).
  { unfold save_final_section. cbn [in_section current_section section_eqb
                                    current_text result andb].
    apply truthy_true in Hne. rewrite Hne, Hstrip. reflexivity. }
  rewrite Hsave.
  destruct (fallback_summary_unused
              (unlines ((HDR_SUMMARY ++ first) :: lines))
              (mkInsight (join (lit " ") (text_lines (first :: lines)))
                         [] [] [] []) Hjoin) as [F E].
  now rewrite F, bind_ok, E.
Qed.

Lemma summary_only_response_witness :
  newline_free [lit "  Cheaper cells. "; []; lit " Longer life.  "; lit "  "]
  = true
  /\ header_free [[]; lit " Longer life.  "; lit "  "] = true
  /\ text_lines [lit "  Cheaper cells. "; []; lit " Longer life.  "; lit "  "]
     <> []
  /\ _parse_structured_output
       (unlines [lit "Insight Summary:  Cheaper cells. "; [];
                 lit " Longer life.  "; lit "  "])
     = Ok (mkInsight (lit "Cheaper cells. Longer life.") [] [] [] []).
Proof.
  split; [reflexivity|]. split; [reflexivity|].
  split; [vm_compute; discriminate|].
  apply (summary_only_response (lit "  Cheaper cells. ")
           [[]; lit " Longer life.  "; lit "  "]); try reflexivity.
  vm_compute; discriminate.
Defined.

(* ------------------------------------------------------------------ *)
(** * Every path of the client *)
(* ------------------------------------------------------------------ *)

Lemma parse_facts (raw_output : str) :
  exists r,
    _parse_structured_output raw_output = Ok r
    /\ insight_summary r <> []
    /\ List.length (extracted_keywords r) <= 8.
Proof.
  unfold _parse_structured_output.
  destruct (scan_total (split [LF] raw_output) initial_state) as [st Hst].
  rewrite Hst, bind_ok.
  destruct (fallback_summary_total raw_output (save_final_section st)) as [r Hr].
  rewrite Hr, bind_ok.
  exists (ensure_summary r). split; [reflexivity|].
  split; [apply ensure_summary_nonempty|].
  destruct (ensure_summary_lists r) as (_ & _ & _ & ->).
  destruct (fallback_summary_lists _ _ _ Hr) as (_ & _ & _ & ->).
  apply save_final_section_keywords.
  now rewrite (scan_keeps_keywords _ _ _ Hst).
Qed.

(** X6.  When the abstract is not blank and the upstream call returns a
    text, [summarize_abstract] makes exactly two calls, the upstream one
    with the prompt built from the abstract and then the parser on the
    trimmed response, and returns what the parser returns. *)
Theorem summarize_success
    (generate_content : str -> library_call str) (abstract text : str) :
  strip abstract <> [] ->
  generate_content (_build_summarization_prompt abstract) = Returns text ->
  exists r,
    _parse_structured_output (strip text) = Ok r
    /\ summarize_abstract generate_content abstract
       = ([Call_generate (_build_summarization_prompt abstract);
           Call_parse (strip text)], Ok r).
Proof.
  intros Hne Hgen.
  destruct (parse_facts (strip text)) as (r & Hr & _).
  exists r. split; [exact Hr|].
  unfold summarize_abstract.
  assert (Ha : truthy abstract = true).
  { apply truthy_true. intros ->. now apply Hne. }
  assert (Hs : truthy (strip abstract) = true) by now apply truthy_true.
  rewrite Ha, Hs. cbn [negb orb].
  unfold try_summarize. now rewrite Hgen, Hr.
Qed.

Lemma summarize_success_witness :
  strip (lit "We study perovskite solar cells.") <> []
  /\ summarize_abstract
       (fun _ => Returns (lit "  Insight Summary: Stable cells.  "))
       (lit "We study perovskite solar cells.")
     = ([Call_generate
           (_build_summarization_prompt (lit "We study perovskite solar cells."));
         Call_parse (lit "Insight Summary: Stable cells.")],
        Ok (mkInsight (lit "Stable cells.") [] [] [] [])).
Proof.
  assert (H : strip (lit "We study perovskite solar cells.") <> [])
    by (vm_compute; discriminate).
  split; [exact H|].
  destruct (summarize_success
              (fun _ => Returns (lit "  Insight Summary: Stable cells.  "))
              (lit "We study perovskite solar cells.")
              (lit "  Insight Summary: Stable cells.  ") H eq_refl)
    as (r & Hr & Hrun).
  rewrite Hrun. vm_compute in Hr. injection Hr as <-. reflexivity.
Defined.

(** X7.  Whatever the abstract and whatever the upstream call does,
    [summarize_abstract] calls upstream at most once and calls the parser
    only after an upstream call.  It ends in one of two ways: it returns a
    record, whose summary is then non-empty and which has at most eight
    keywords; or an exception leaves it, which happens only when the
    upstream call raised that exception and its class is outside
    [Exception], the upstream call being the one call made. *)
Theorem summarize_always
    (generate_content : str -> library_call str) (abstract : str) :
  let (calls, out) := summarize_abstract generate_content abstract in
  match out with
  | Ok r =>
      insight_summary r <> []
      /\ List.length (extracted_keywords r) <= 8
      /\ (calls = []
          \/ calls = [Call_generate (_build_summarization_prompt abstract)]
          \/ exists raw_output,
               calls = [Call_generate (_build_summarization_prompt abstract);
                        Call_parse raw_output])
  | Raise e =>
      generate_content (_build_summarization_prompt abstract)
      = Raises_base_exception e
      /\ calls = [Call_generate (_build_summarization_prompt abstract)]
  end.
Proof.
  unfold summarize_abstract.
  destruct (negb (truthy abstract) || negb (truthy (strip abstract))).
  - split; [discriminate|]. split; [simpl; lia | now left].
  - unfold try_summarize.
    destruct (generate_content (_build_summarization_prompt abstract))
      as [text|e|e].
    + destruct (parse_facts (strip text)) as (r & -> & Hsum & Hkw).
      split; [exact Hsum|]. split; [exact Hkw|].
      right. right. now exists (strip text).
    + split; [discriminate|]. split; [simpl; lia|]. right. now left.
    + now split.
Qed.

(* ------------------------------------------------------------------ *)
(** * The shape of the summary *)
(* ------------------------------------------------------------------ *)

Lemma strip_stored (s : str) : strip s = [] \/ trimmed (strip s) = true.
Proof.
  destruct (strip s) eqn:E; [now left | right].
  rewrite <- E. apply trimmed_strip_result. now rewrite E.
Qed.

Lemma save_final_section_summary (st : pstate) :
  stored_summary_ok (result st) -> stored_summary_ok (save_final_section st).
Proof.
  unfold stored_summary_ok, save_final_section. intro H.
  repeat match goal with
         | |- context [if ?c then _ else _] => destruct c
         end;
    cbn [insight_summary set_insight_summary set_key_innovations
         set_novel_methods set_potential_applications set_extracted_keywords];
    first [exact H | apply strip_stored].
Qed.

Lemma loop_body_summary (st st' : pstate) (line : str) :
  stored_summary_ok (result st) -> loop_body st line = Ok st' ->
  stored_summary_ok (result st').
Proof.
  intros Hst. destruct (header_of (strip line)) as [sec|] eqn:E.
  - rewrite (loop_body_header _ _ _ E). intros [= <-]. cbn [result].
    unfold saved_result. destruct (saved_by sec); [|exact Hst].
    destruct (in_section st s);
      [now apply save_final_section_summary | exact Hst].
  - rewrite (loop_body_content _ _ E). intros [= <-].
    unfold process_content, append_text, extend_text.
    destruct (current_section st) as [[]|];
      repeat match goal with
             | |- context [if ?c then _ else _] => destruct c
             end; exact Hst.
Qed.

Lemma scan_summary (lines : list str) :
  forall st st',
    stored_summary_ok (result st) -> scan st lines = Ok st' ->
    stored_summary_ok (result st').
Proof.
  induction lines as [|line rest IH]; simpl; intros st st' Hst H.
  - now injection H as <-.
  - destruct (loop_body st line) as [st1|] eqn:E; simpl in H; [|discriminate].
    eapply IH; [|exact H]. eapply loop_body_summary; eauto.
Qed.

Lemma paragraphs_clean (raw_output : str) : clean_items (paragraphs_of raw_output).
Proof.
  unfold paragraphs_of, clean_items. apply Forall_forall. intros p Hp.
  apply in_map_iff in Hp as (q & <- & Hq). apply filter_In in Hq as [_ Hq].
  now apply trimmed_strip_result.
Qed.

(** X8.  On every input the summary of the parsed record is non-empty and
    does not begin with whitespace; when it is shorter than 500 characters
    it does not end with whitespace either. *)
Theorem parsed_summary_shape (raw_output : str) :
  exists r : InsightRecord,
    _parse_structured_output raw_output = Ok r
    /\ head_outside isspace (insight_summary r)
    /\ (List.length (insight_summary r) < 500 ->
        last_outside isspace (insight_summary r)).
Proof.
  unfold _parse_structured_output.
  destruct (scan_total (split [LF] raw_output) initial_state) as [st Hst].
  rewrite Hst, bind_ok.
  assert (Hsum : stored_summary_ok (save_final_section st)).
  { apply save_final_section_summary.
    eapply scan_summary; [|exact Hst]. now left. }
  unfold fallback_summary, ensure_summary.
  destruct Hsum as [E | Htrim].
  - rewrite E. cbn [truthy negb].
    pose proof (paragraphs_clean raw_output) as Hpar.
    destruct (paragraphs_of raw_output) as [|p ps]; cbn [truthy].
    + rewrite bind_ok, E. cbn [truthy negb].
      eexists. split; [reflexivity|]. cbn [insight_summary set_insight_summary].
      split; [reflexivity | intros _; reflexivity].
    + inversion Hpar as [|? ? Hp _]; subst.
      apply trimmed_edges in Hp as (Hne & Hh & Hl).
      destruct p as [|c t]; [congruence|].
      cbn [index nth_error]. rewrite !bind_ok.
      rewrite (firstn_cons 499 c t).
      cbn [insight_summary set_insight_summary truthy negb].
      eexists. split; [reflexivity|]. cbn [insight_summary].
      split; [exact Hh|]. intro Hlen.
      cbn [insight_summary set_insight_summary List.length] in Hlen |- *.
      rewrite length_firstn in Hlen.
      rewrite firstn_all2 by lia. exact Hl.
  - apply trimmed_edges in Htrim as (Hne & Hh & Hl).
    apply truthy_true in Hne. rewrite Hne. cbn [negb]. rewrite bind_ok, Hne.
    cbn [negb]. eexists. split; [reflexivity|]. now split.
Qed.

(* ------------------------------------------------------------------ *)
(** * Cleaning titles and abstracts *)
(* ------------------------------------------------------------------ *)

Lemma split_words_from_words (s : str) :
  forallb (fun c => negb (isspace c)) (fst (split_words_from s)) = true
  /\ Forall is_word (snd (split_words_from s)).
Proof.
  induction s as [|c s [IHw IHws]]; [now split|].
  cbn [split_words_from]. destruct (split_words_from s) as [w ws].
  cbn [fst snd] in *. destruct (isspace c) eqn:E; cbn [fst snd].
  - split; [reflexivity|]. unfold push_word.
    destruct (truthy w) eqn:Hw; [|exact IHws].
    constructor; [|exact IHws]. split; [now apply truthy_true | exact IHw].
  - split; [|exact IHws]. cbn [forallb]. now rewrite E, IHw.
Qed.

Lemma split_whitespace_words (s : str) : Forall is_word (split_whitespace s).
Proof.
  unfold split_whitespace.
  destruct (split_words_from_words s) as [Hw Hws].
  destruct (split_words_from s) as [w ws]. cbn [fst snd] in *.
  unfold push_word. destruct (truthy w) eqn:E; [|exact Hws].
  constructor; [|exact Hws]. split; [now apply truthy_true | exact Hw].
Qed.

Lemma split_words_from_word (w s : str) :
  forallb (fun c => negb (isspace c)) w = true ->
  split_words_from (w ++ s)
  = (w ++ fst (split_words_from s), snd (split_words_from s)).
Proof.
  induction w as [|c w IH]; intro H.
  - simpl. now destruct (split_words_from s).
  - cbn [forallb] in H. apply andb_true_iff in H as [Hc Hw].
    apply negb_true_iff in Hc.
    cbn [app split_words_from]. rewrite (IH Hw), Hc. reflexivity.
Qed.

Lemma split_whitespace_word_space (w s : str) :
  is_word w ->
  split_whitespace (w ++ SPACE :: s) = w :: split_whitespace s.
Proof.
  intros [Hne Hw]. unfold split_whitespace.
  rewrite (split_words_from_word _ _ Hw).
  cbn [split_words_from]. destruct (split_words_from s) as [w' ws].
  change (isspace SPACE) with true. cbn [fst snd].
  rewrite app_nil_r. unfold push_word at 1.
  apply truthy_true in Hne. now rewrite Hne.
Qed.

(** Splitting at whitespace undoes joining words by single spaces. *)
Lemma split_whitespace_join (ws : list str) :
  Forall is_word ws -> split_whitespace (join [SPACE] ws) = ws.
Proof.
  induction 1 as [|w ws Hw Hws IH]; [reflexivity|].
  destruct ws as [|w2 ws].
  - cbn [join]. rewrite <- (app_nil_r w) at 1. unfold split_whitespace.
    destruct Hw as [Hne Hw]. rewrite (split_words_from_word _ _ Hw).
    cbn [split_words_from fst snd]. rewrite app_nil_r. unfold push_word.
    apply truthy_true in Hne. now rewrite Hne.
  - change (join [SPACE] (w :: w2 :: ws))
      with (w ++ SPACE :: join [SPACE] (w2 :: ws)).
    now rewrite (split_whitespace_word_space _ _ Hw), IH.
Qed.

Lemma is_word_edges (w : str) :
  is_word w -> head_outside isspace w /\ last_outside isspace w.
Proof.
  intros [Hne Hw]. rewrite forallb_forall in Hw. split.
  - destruct w as [|c w]; [congruence|]. simpl.
    apply negb_true_iff, Hw. now left.
  - unfold last_outside. destruct (rev w) as [|d u] eqn:E.
    + destruct Hne. rewrite <- (rev_involutive w), E. reflexivity.
    + simpl. apply negb_true_iff, Hw, in_rev. rewrite E. now left.
Qed.

Lemma words_joined_trimmed (ws : list str) :
  Forall is_word ws -> strip (join [SPACE] ws) = join [SPACE] ws.
Proof.
  intro H. destruct ws as [|w ws]; [reflexivity|].
  destruct (join_edges isspace [SPACE] (w :: ws)) as [Hh Hl];
    [discriminate | | now apply strip_keep].
  eapply Forall_impl; [|exact H]. intros t Ht. now apply is_word_edges.
Qed.

Lemma words_joined_spaces (ws : list str) (c : char) :
  Forall is_word ws ->
  In c (join [SPACE] ws) -> isspace c = true -> c = SPACE.
Proof.
  induction 1 as [|w ws [_ Hw] Hws IH]; [intros []|].
  assert (Hin : In c w -> isspace c = true -> c = SPACE).
  { intros Hc Hsp. rewrite forallb_forall in Hw. apply Hw in Hc.
    rewrite Hsp in Hc. discriminate. }
  destruct ws as [|w2 ws]; [exact Hin|].
  change (join [SPACE] (w :: w2 :: ws))
    with (w ++ SPACE :: join [SPACE] (w2 :: ws)).
  intros Hc Hsp. apply in_app_or in Hc as [Hc | [Hc | Hc]]; auto.
Qed.

Lemma no_double_space_after_word (w s : str) :
  is_word w ->
  s = [] \/ head_outside isspace s ->
  contains [SPACE; SPACE] s = false ->
  contains [SPACE; SPACE] (w ++ SPACE :: s) = false.
Proof.
  intros [_ Hw] Hs Hno. induction w as [|c w IH].
  - cbn [app contains startswith]. rewrite N.eqb_refl, Hno.
    destruct s as [|d s]; [reflexivity|].
    destruct Hs as [Hs | Hs]; [discriminate|]. simpl in Hs.
    destruct (N.eqb_spec SPACE d) as [<- | _]; [discriminate | reflexivity].
  - cbn [forallb] in Hw. apply andb_true_iff in Hw as [Hc Hw].
    apply negb_true_iff in Hc.
    cbn [app contains startswith]. rewrite (IH Hw).
    destruct (N.eqb_spec SPACE c) as [<- | _]; [discriminate | reflexivity].
Qed.

Lemma no_double_space_word (w : str) :
  is_word w -> contains [SPACE; SPACE] w = false.
Proof.
  intros [_ Hw]. induction w as [|c w IH]; [reflexivity|].
  cbn [forallb] in Hw. apply andb_true_iff in Hw as [Hc Hw].
  apply negb_true_iff in Hc. cbn [contains startswith]. rewrite (IH Hw).
  destruct (N.eqb_spec SPACE c) as [<- | _]; [discriminate | reflexivity].
Qed.

Lemma words_joined_single_spaced (ws : list str) :
  Forall is_word ws -> contains [SPACE; SPACE] (join [SPACE] ws) = false.
Proof.
  induction 1 as [|w ws Hw Hws IH]; [reflexivity|].
  destruct ws as [|w2 ws]; [now apply no_double_space_word|].
  change (join [SPACE] (w :: w2 :: ws))
    with (w ++ SPACE :: join [SPACE] (w2 :: ws)).
  apply no_double_space_after_word; [assumption | right | exact IH].
  apply (join_edges isspace [SPACE] (w2 :: ws)); [discriminate|].
  eapply Forall_impl; [|exact Hws]. intros t Ht. now apply is_word_edges.
Qed.

Lemma replace_char_absent (old new : char) (s : str) :
  mem old s = false -> replace_char old new s = s.
Proof.
  unfold replace_char. induction s as [|c s IH]; [reflexivity|].
  cbn [mem existsb map]. intro H. apply orb_false_iff in H as [Hc Hs].
  rewrite N.eqb_sym, Hc. f_equal. now apply IH.
Qed.

Lemma replace_char_gone (old new : char) (s : str) :
  old <> new -> mem old (replace_char old new s) = false.
Proof.
  intro Hne. unfold replace_char. induction s as [|c s IH]; [reflexivity|].
  cbn [map]. unfold mem in *. cbn [existsb]. rewrite IH, orb_false_r.
  destruct (N.eqb_spec c old) as [-> | Hc]; apply N.eqb_neq; congruence.
Qed.

Lemma words_joined_no_newline (ws : list str) :
  Forall is_word ws -> mem LF (join [SPACE] ws) = false.
Proof.
  intro H. apply mem_join; [reflexivity|].
  eapply Forall_impl; [|exact H]. intros w [_ Hw].
  destruct (mem LF w) eqn:E; [|reflexivity].
  apply existsb_exists in E as (x & Hx & Hlf). apply N.eqb_eq in Hlf. subst x.
  rewrite forallb_forall in Hw. now apply Hw in Hx.
Qed.

Lemma clean_abstract_facts (raw : str) :
  strip (clean_abstract raw) = clean_abstract raw
  /\ (forall c, In c (clean_abstract raw) -> isspace c = true -> c = SPACE)
  /\ contains [SPACE; SPACE] (clean_abstract raw) = false
  /\ clean_abstract (clean_abstract raw) = clean_abstract raw.
Proof.
  unfold clean_abstract.
  pose proof (split_whitespace_words (strip (replace_char LF SPACE raw))) as H.
  set (ws := split_whitespace (strip (replace_char LF SPACE raw))) in *.
  split; [now apply words_joined_trimmed|].
  split; [intro c; now apply words_joined_spaces|].
  split; [now apply words_joined_single_spaced|].
  rewrite replace_char_absent by now apply words_joined_no_newline.
  now rewrite words_joined_trimmed, split_whitespace_join.
Qed.

Lemma parse_entry_fields (entry : feed_entry) (p : paper) :
  parse_entry entry = Some p ->
  title p = clean_title (get_or_empty (entry_title entry))
  /\ abstract p = clean_abstract (get_or_empty (entry_summary entry)).
Proof.
  unfold parse_entry.
  destruct (entry_published entry); intros [= <-]; now split.
Qed.

(** X9.  The abstract of every paper [parse_entry] returns is in normal
    form, whatever the feed's summary: it has no leading or trailing
    whitespace, its only whitespace characters are spaces, no two spaces
    are adjacent, and cleaning it again changes nothing. *)
Theorem parsed_abstract_normal_form (entry : feed_entry) (p : paper) :
  parse_entry entry = Some p ->
  strip (abstract p) = abstract p
  /\ (forall c, In c (abstract p) -> isspace c = true -> c = SPACE)
  /\ contains [SPACE; SPACE] (abstract p) = false
  /\ clean_abstract (abstract p) = abstract p.
Proof.
  intro H. apply parse_entry_fields in H as [_ ->].
  apply clean_abstract_facts.
Qed.

Lemma parsed_abstract_normal_form_witness :
  let entry :=
    mkEntry (Some (lit "Solar cells"))
            (Some ([32; 32]%N ++ lit "We  study" ++ [10; 9]%N
                     ++ lit "perovskite cells." ++ [10]%N))
            [lit "A. Author"] Published_invalid [] in
  let p := mkPaper (lit "Solar cells") (lit "We study perovskite cells.")
                   [lit "A. Author"] None None in
  parse_entry entry = Some p
  /\ strip (abstract p) = abstract p
  /\ contains [SPACE; SPACE] (abstract p) = false.
Proof.
  split; [reflexivity|].
  destruct (parsed_abstract_normal_form
              (mkEntry (Some (lit "Solar cells"))
                       (Some ([32; 32]%N ++ lit "We  study" ++ [10; 9]%N
                                ++ lit "perovskite cells." ++ [10]%N))
                       [lit "A. Author"] Published_invalid [])
              (mkPaper (lit "Solar cells") (lit "We study perovskite cells.")
                       [lit "A. Author"] None None)
              eq_refl) as (H1 & _ & H3 & _).
  now split.
Defined.

(** X10.  The title of every paper [parse_entry] returns holds no newline
    and has no leading or trailing whitespace. *)
Theorem parsed_title_shape (entry : feed_entry) (p : paper) :
  parse_entry entry = Some p ->
  mem LF (title p) = false /\ strip (title p) = title p.
Proof.
  intro H. apply parse_entry_fields in H as [-> _].
  unfold clean_title. split; [|apply strip_idempotent].
  apply mem_strip, replace_char_gone. discriminate.
Qed.

Lemma parsed_title_shape_witness :
  let entry :=
    mkEntry (Some (lit " Grid storage" ++ [10; 32; 32]%N ++ lit "at scale "))
            None [] (Published_at 0%Z) [] in
  let p := mkPaper (lit "Grid storage   at scale") [] [] (Some 0%Z) None in
  parse_entry entry = Some p
  /\ mem LF (title p) = false /\ strip (title p) = title p.
Proof.
  split; [reflexivity|].
  exact (parsed_title_shape
           (mkEntry (Some (lit " Grid storage" ++ [10; 32; 32]%N
                             ++ lit "at scale "))
                    None [] (Published_at 0%Z) [])
           (mkPaper (lit "Grid storage   at scale") [] [] (Some 0%Z) None)
           eq_refl).
Defined.

(** X11.  A parsed paper's abstract is blank only when it is empty: for
    every paper [parse_entry] returns with a non-empty abstract,
    [summarize_abstract] goes past its blank test and its first call is the
    upstream one, with the prompt built from that abstract. *)
Theorem parsed_abstract_reaches_upstream
    (generate_content : str -> library_call str) (entry : feed_entry)
    (p : paper) :
  parse_entry entry = Some p ->
  abstract p <> [] ->
  exists later out,
    summarize_abstract generate_content (abstract p)
    = (Call_generate (_build_summarization_prompt (abstract p)) :: later, out).
Proof.
  intros H Hne.
  apply parse_entry_fields in H as [_ H].
  pose proof (clean_abstract_facts (get_or_empty (entry_summary entry)))
    as (Hstrip & _). rewrite <- H in Hstrip.
  unfold summarize_abstract. apply truthy_true in Hne.
  rewrite Hstrip, Hne. cbn [negb orb]. unfold try_summarize.
  destruct (generate_content (_build_summarization_prompt (abstract p)))
    as [text|e|e].
  - destruct (_parse_structured_output (strip text)); eauto.
  - eauto.
  - eauto.
Qed.

Lemma parsed_abstract_reaches_upstream_witness :
  let entry := mkEntry None (Some (lit " Wind  farms. ")) []
                       Published_falsy [] in
  let p := mkPaper [] (lit "Wind farms.") [] None None in
  parse_entry entry = Some p
  /\ abstract p <> []
  /\ exists later out,
       summarize_abstract (fun _ => Raises_exception (lit "offline"))
                          (abstract p)
       = (Call_generate (_build_summarization_prompt (abstract p)) :: later,
          out).
Proof.
  split; [reflexivity|].
  assert (H : abstract (mkPaper [] (lit "Wind farms.") [] None None) <> [])
    by (vm_compute; discriminate).
  split; [exact H|].
  exact (parsed_abstract_reaches_upstream
           (fun _ => Raises_exception (lit "offline"))
           (mkEntry None (Some (lit " Wind  farms. ")) [] Published_falsy [])
           (mkPaper [] (lit "Wind farms.") [] None None) eq_refl H).
Defined.

(* ------------------------------------------------------------------ *)
(** * Fetching with retries *)
(* ------------------------------------------------------------------ *)

(** X12.  Whatever the network does, [fetch] makes at most three
    requests, all to the same URL, and sleeps two seconds after each
    attempt that failed with an exception of class [Exception], except the
    third.  It returns the entries of the first attempt that returns; it
    raises the third attempt's exception when all three failed; and an
    exception of a class outside [Exception] leaves it at once, at
    whichever attempt it occurs, with no pause after it.  It never returns
    [None]. *)
Theorem fetch_retries (entries : Type)
    (feedparser_parse : str -> nat -> library_call entries)
    (self_max_results : Z) (query : str) (max_results : option Z)
    (sort_by sort_order : str) :
  let url := fetch_url self_max_results query max_results sort_by sort_order in
  let (events, out) :=
    fetch entries feedparser_parse self_max_results query max_results
          sort_by sort_order in
  exists failures,
    failures < 3
    /\ events = attempts_log url failures
    /\ (forall j, j < failures ->
          exists e, feedparser_parse url j = Raises_exception e)
    /\ ((exists found,
           feedparser_parse url failures = Returns found
           /\ out = Ok (Some found))
        \/ (exists e,
              feedparser_parse url failures = Raises_base_exception e
              /\ out = Raise e)
        \/ (failures = 2
            /\ exists e,
                 feedparser_parse url 2 = Raises_exception e
                 /\ out = Raise e)).
Proof.
  unfold fetch. set (url := fetch_url _ _ _ _ _). cbv zeta.
  cbn [fetch_attempts MAX_RETRIES Nat.sub Nat.ltb Nat.leb].
  destruct (feedparser_parse url 0) as [found0|e0|e0] eqn:E0.
  { exists 0. repeat split; [lia | intros j Hj; lia | left; eauto]. }
  2:{ exists 0. repeat split; [lia | intros j Hj; lia | right; left; eauto]. }
  destruct (feedparser_parse url 1) as [found1|e1|e1] eqn:E1.
  { exists 1. repeat split; [lia | | left; eauto].
    intros j Hj. assert (j = 0) as -> by lia. eauto. }
  2:{ exists 1. repeat split; [lia | | right; left; eauto].
      intros j Hj. assert (j = 0) as -> by lia. eauto. }
  assert (Hfail : forall j, j < 2 ->
            exists e, feedparser_parse url j = Raises_exception e).
  { intros j Hj. assert (j = 0 \/ j = 1) as [-> | ->] by lia; eauto. }
  destruct (feedparser_parse url 2) as [found2|e2|e2] eqn:E2.
  - exists 2. repeat split; [lia | exact Hfail | left; eauto].
  - exists 2. repeat split; [lia | exact Hfail | right; right; eauto].
  - exists 2. repeat split; [lia | exact Hfail | right; left; eauto].
Qed.

(* ------------------------------------------------------------------ *)
(** * The filters *)
(* ------------------------------------------------------------------ *)

Section FilterFacts.

Variable dict : Type.
Variable get_published_date : dict -> option datetime.
Variable get_abstract : dict -> option str.
Variable lower : str -> str.
Variable now : datetime.
Variable minus_days : datetime -> Z -> outcome datetime.

Lemma existsb_incl {A : Type} (f : A -> bool) (l1 l2 : list A) :
  incl l1 l2 -> existsb f l1 = true -> existsb f l2 = true.
Proof.
  intros Hincl H. apply existsb_exists in H as (x & Hx & Hf).
  apply existsb_exists. exists x. auto.
Qed.

Lemma matches_keywords_incl (keywords1 keywords2 : list str)
    (case_sensitive : bool) (p : dict) :
  incl keywords1 keywords2 ->
  matches_keywords dict get_abstract lower keywords1 case_sensitive p = true ->
  matches_keywords dict get_abstract lower keywords2 case_sensitive p = true.
Proof.
  unfold matches_keywords. intro Hincl.
  destruct (get_abstract p) as [text|]; [|discriminate].
  destruct (negb (truthy text)); [discriminate|].
  now apply existsb_incl.
Qed.

(** X13.  With a non-empty keyword list, adding keywords never loses a
    paper: every paper kept for a list is kept for every list that contains
    it.  The empty list is the exception to the pattern: it filters
    nothing and returns all papers. *)
Theorem more_keywords_keep_more (papers : list dict)
    (keywords1 keywords2 : list str) (case_sensitive : bool) :
  keywords1 <> [] ->
  incl keywords1 keywords2 ->
  incl (filter_by_abstract_keywords dict get_abstract lower
          papers keywords1 case_sensitive)
       (filter_by_abstract_keywords dict get_abstract lower
          papers keywords2 case_sensitive)
  /\ filter_by_abstract_keywords dict get_abstract lower
       papers [] case_sensitive = papers.
Proof.
  intros Hne Hincl. split.
  - unfold filter_by_abstract_keywords.
    assert (H2 : keywords2 <> []).
    { destruct keywords1 as [|k ks]; [congruence|].
      intros ->. exact (Hincl k (or_introl eq_refl)). }
    apply truthy_true in Hne, H2. rewrite Hne, H2.
    destruct (truthy papers); cbn [negb orb]; [|apply incl_refl].
    intros p Hp. apply filter_In in Hp as [Hin Hm]. apply filter_In.
    split; [exact Hin|]. revert Hm. apply matches_keywords_incl.
    destruct case_sensitive; [exact Hincl | now apply incl_map].
  - unfold filter_by_abstract_keywords. cbn [truthy negb].
    now rewrite orb_true_r.
Qed.

Lemma contains_empty (s : str) : contains [] s = true.
Proof. now destruct s. Qed.

(** X14.  An empty string among the keywords matches every paper that has
    a non-empty abstract: the filter then keeps exactly those papers,
    whatever the other keywords. *)
Theorem empty_keyword_keeps_all (papers : list dict) (keywords : list str)
    (case_sensitive : bool) :
  lower [] = [] ->
  In [] keywords ->
  filter_by_abstract_keywords dict get_abstract lower
    papers keywords case_sensitive
  = filter (fun p => match get_abstract p with
                     | Some text => truthy text
                     | None => false
                     end) papers.
Proof.
  intros Hlower Hin. unfold filter_by_abstract_keywords.
  destruct papers as [|p0 papers]; [reflexivity|].
  destruct keywords as [|k ks]; [destruct Hin|].
  cbn [truthy negb orb]. apply filter_ext. intro p.
  unfold matches_keywords. destruct (get_abstract p) as [text|]; [|reflexivity].
  destruct (truthy text); cbn [negb]; [|reflexivity].
  apply existsb_exists. exists []. split; [|apply contains_empty].
  destruct case_sensitive; [exact Hin|].
  rewrite <- Hlower. now apply in_map.
Qed.

Hypothesis minus_days_exact :
  forall d n d',
    minus_days d n = Ok d' -> d' = (d - n * MICROSECONDS_PER_DAY)%Z.

(** X15.  A longer look-back keeps more: when both calls return, every
    paper kept for [months1] is kept for any [months2 >= months1]. *)
Theorem longer_window_keeps_more (papers : list dict) (months1 months2 : Z)
    (kept1 kept2 : list dict) :
  (months1 <= months2)%Z ->
  filter_by_months dict get_published_date now minus_days papers months1
  = Ok kept1 ->
  filter_by_months dict get_published_date now minus_days papers months2
  = Ok kept2 ->
  incl kept1 kept2.
Proof.
  unfold filter_by_months. intro Hle.
  destruct (negb (truthy papers)).
  { intros [= <-] [= <-]. apply incl_refl. }
  destruct (minus_days now (months1 * 30)) as [c1|] eqn:E1; [|discriminate].
  destruct (minus_days now (months2 * 30)) as [c2|] eqn:E2; [|discriminate].
  cbn [bind]. intros [= <-] [= <-].
  apply minus_days_exact in E1, E2.
  intros p Hp. apply filter_In in Hp as [Hin Hs]. apply filter_In.
  split; [exact Hin|]. unfold published_since in *.
  destruct (get_published_date p) as [d|]; [|discriminate].
  apply Z.leb_le in Hs. apply Z.leb_le.
  unfold MICROSECONDS_PER_DAY in *. lia.
Qed.

Lemma insert_newest_perm (p : dict) (sorted : list dict) :
  Permutation (p :: sorted) (insert_newest dict get_published_date p sorted).
Proof.
  induction sorted as [|q rest IH]; cbn [insert_newest]; [reflexivity|].
  destruct (get_date dict get_published_date q
            <=? get_date dict get_published_date p)%Z; [reflexivity|].
  rewrite perm_swap. now apply perm_skip.
Qed.

Lemma insert_newest_sorted (p : dict) (sorted : list dict) :
  StronglySorted
    (fun a b => (get_date dict get_published_date b
                 <= get_date dict get_published_date a)%Z) sorted ->
  StronglySorted
    (fun a b => (get_date dict get_published_date b
                 <= get_date dict get_published_date a)%Z)
    (insert_newest dict get_published_date p sorted).
Proof.
  induction 1 as [|q rest Hrest IH Hq]; cbn [insert_newest].
  - repeat constructor.
  - destruct (Z.leb_spec (get_date dict get_published_date q)
                         (get_date dict get_published_date p)) as [Hle|Hlt].
    + constructor; [now constructor|].
      constructor; [exact Hle|].
      eapply Forall_impl; [|exact Hq]. cbv beta. intros a Ha. lia.
    + constructor; [exact IH|].
      eapply Permutation_Forall; [apply insert_newest_perm|].
      constructor; [lia | exact Hq].
Qed.

Lemma insert_newest_filter (d : datetime) (p : dict) (sorted : list dict) :
  filter (fun a => (get_date dict get_published_date a =? d)%Z)
         (insert_newest dict get_published_date p sorted)
  = filter (fun a => (get_date dict get_published_date a =? d)%Z)
           (p :: sorted).
Proof.
  induction sorted as [|q rest IH]; cbn [insert_newest]; [reflexivity|].
  destruct (Z.leb_spec (get_date dict get_published_date q)
                       (get_date dict get_published_date p)) as [Hle|Hlt];
    [reflexivity|].
  cbn [filter] in *. rewrite IH.
  destruct (Z.eqb_spec (get_date dict get_published_date p) d) as [Hp|Hp];
    [|reflexivity].
  destruct (Z.eqb_spec (get_date dict get_published_date q) d) as [Hq|Hq];
    [lia | reflexivity].
Qed.

(** X16.  [sort_by_newest] returns the same papers, newest first, where a
    paper without a date counts as dated 1970-01-01, and papers of equal
    date keep the order they came in. *)
Theorem sort_by_newest_spec (papers : list dict) :
  Permutation papers (sort_by_newest dict get_published_date papers)
  /\ StronglySorted
       (fun a b => (get_date dict get_published_date b
                    <= get_date dict get_published_date a)%Z)
       (sort_by_newest dict get_published_date papers)
  /\ forall d,
       filter (fun a => (get_date dict get_published_date a =? d)%Z)
              (sort_by_newest dict get_published_date papers)
       = filter (fun a => (get_date dict get_published_date a =? d)%Z)
                papers.
Proof.
  induction papers as [|p rest (IHperm & IHsorted & IHstable)];
    cbn [sort_by_newest].
  - repeat split; constructor.
  - split; [|split].
    + rewrite <- insert_newest_perm. now apply perm_skip.
    + now apply insert_newest_sorted.
    + intro d. rewrite insert_newest_filter. cbn [filter]. now rewrite IHstable.
Qed.

End FilterFacts.

Lemma more_keywords_keep_more_witness :
  let papers := [mkPaper (lit "A") (lit "Wind turbines") [] None None;
                 mkPaper (lit "B") (lit "Solar cells") [] None None;
                 mkPaper (lit "C") [] [] None None] in
  let run := filter_by_abstract_keywords paper (fun p => Some (abstract p))
               (fun s => s) papers in
  [lit "Wind"] <> []
  /\ incl [lit "Wind"] [lit "Solar"; lit "Wind"]
  /\ incl (run [lit "Wind"] true) (run [lit "Solar"; lit "Wind"] true)
  /\ run [] true = papers.
Proof.
  assert (Hne : [lit "Wind"] <> []) by discriminate.
  assert (Hincl : incl [lit "Wind"] [lit "Solar"; lit "Wind"]).
  { intros x [<- | []]. right. now left. }
  split; [exact Hne|]. split; [exact Hincl|].
  exact (more_keywords_keep_more paper (fun p => Some (abstract p))
           (fun s => s)
           [mkPaper (lit "A") (lit "Wind turbines") [] None None;
            mkPaper (lit "B") (lit "Solar cells") [] None None;
            mkPaper (lit "C") [] [] None None]
           [lit "Wind"] [lit "Solar"; lit "Wind"] true Hne Hincl).
Defined.

Lemma empty_keyword_keeps_all_witness :
  let papers := [mkPaper (lit "A") (lit "Wind turbines") [] None None;
                 mkPaper (lit "C") [] [] None None] in
  (fun s : str => s) [] = []
  /\ In [] [lit "quantum"; []]
  /\ filter_by_abstract_keywords paper (fun p => Some (abstract p))
       (fun s => s) papers [lit "quantum"; []] false
     = [mkPaper (lit "A") (lit "Wind turbines") [] None None].
Proof.
  assert (Hin : In (@nil char) [lit "quantum"; []]) by (right; now left).
  split; [reflexivity|]. split; [exact Hin|].
  exact (empty_keyword_keeps_all paper (fun p => Some (abstract p))
           (fun s => s)
           [mkPaper (lit "A") (lit "Wind turbines") [] None None;
            mkPaper (lit "C") [] [] None None]
           [lit "quantum"; []] false eq_refl Hin).
Defined.

Lemma longer_window_keeps_more_witness :
  let minus_days := fun (d : datetime) (n : Z) =>
                      @Ok datetime (d - n * MICROSECONDS_PER_DAY)%Z in
  let now := (100 * MICROSECONDS_PER_DAY)%Z in
  let old := mkPaper (lit "old") [] [] (Some (50 * MICROSECONDS_PER_DAY)%Z)
                     None in
  let new := mkPaper (lit "new") [] [] (Some (80 * MICROSECONDS_PER_DAY)%Z)
                     None in
  (forall d n d', minus_days d n = Ok d' ->
                  d' = (d - n * MICROSECONDS_PER_DAY)%Z)
  /\ (1 <= 2)%Z
  /\ filter_by_months paper published_date now minus_days [old; new] 1
     = Ok [new]
  /\ filter_by_months paper published_date now minus_days [old; new] 2
     = Ok [old; new]
  /\ incl [new] [old; new].
Proof.
  assert (Hexact : forall d n d',
             @Ok datetime (d - n * MICROSECONDS_PER_DAY)%Z = Ok d' ->
             d' = (d - n * MICROSECONDS_PER_DAY)%Z)
    by (intros d n d' [= <-]; reflexivity).
  split; [exact Hexact|]. split; [lia|].
  split; [reflexivity|]. split; [reflexivity|].
  exact (longer_window_keeps_more paper published_date
           (100 * MICROSECONDS_PER_DAY)%Z
           (fun d n => Ok (d - n * MICROSECONDS_PER_DAY)%Z) Hexact
           [mkPaper (lit "old") [] [] (Some (50 * MICROSECONDS_PER_DAY)%Z) None;
            mkPaper (lit "new") [] [] (Some (80 * MICROSECONDS_PER_DAY)%Z) None]
           1%Z 2%Z _ _ ltac:(lia) eq_refl eq_refl).
Defined.

(* ------------------------------------------------------------------ *)
(** * The selection of [main] *)
(* ------------------------------------------------------------------ *)

Lemma effective_keywords_nonempty (args_keywords : option (list str)) :
  truthy (effective_keywords args_keywords) = true.
Proof. now destruct args_keywords as [[|kw more]|]. Qed.

Lemma filter_filter {A : Type} (f g : A -> bool) (l : list A) :
  filter f (filter g l) = filter (fun x => g x && f x) l.
Proof.
  induction l as [|x l IH]; [reflexivity|].
  cbn [filter]. destruct (g x); cbn [filter andb]; now rewrite IH.
Qed.

Lemma sorted_split {A : Type} (R : A -> A -> Prop) (a b : list A) :
  StronglySorted R (a ++ b) ->
  forall x y, In x a -> In y b -> R x y.
Proof.
  induction a as [|h a IH]; intros H x y Hx Hy; [destruct Hx|].
  cbn [app] in H. inversion H as [|? ? Hs Hall]; subst.
  destruct Hx as [<- | Hx].
  - apply (proj1 (Forall_forall _ _) Hall). apply in_or_app. now right.
  - now apply IH.
Qed.

Lemma slice_to_firstn {A : Type} (n : Z) (l : list A) :
  exists k, slice_to n l = firstn k l.
Proof. unfold slice_to. destruct (0 <=? n)%Z; eauto. Qed.

(** The papers [main] sorts: those of the input that pass both filters. *)
Lemma relevant_papers (lower : str -> str) (now : datetime)
    (minus_days : datetime -> Z -> outcome datetime)
    (papers : list paper) (months : Z) (keywords : list str)
    (cutoff_date : datetime) :
  truthy keywords = true ->
  minus_days now (months * 30)%Z = Ok cutoff_date ->
  (recent <- filter_by_months paper published_date now minus_days
               papers months ;;
   Ok (filter_by_abstract_keywords paper (fun p => Some (abstract p)) lower
         recent keywords false))
  = Ok (filter (passes_filters lower cutoff_date keywords) papers).
Proof.
  intros Hkw Hcut. unfold filter_by_months.
  destruct papers as [|p0 papers]; [reflexivity|].
  cbn [truthy negb]. rewrite Hcut, !bind_ok.
  unfold filter_by_abstract_keywords. rewrite Hkw. cbn [negb].
  rewrite orb_false_r. unfold passes_filters.
  destruct (truthy (filter _ (p0 :: papers))) eqn:E; cbn [negb].
  - now rewrite filter_filter.
  - apply truthy_false in E. rewrite <- filter_filter, E. reflexivity.
Qed.

(** X17.  The papers [main] selects for summarization are the newest of
    those that pass both filters: the selection, followed by the papers
    left out, is a rearrangement of the input papers dated on or after the
    cutoff whose non-empty abstract holds a keyword; every selected paper
    has a date, and no paper left out is newer than a selected one.  The
    1970 default of the sort never comes into play. *)
Theorem select_top_papers_newest (lower : str -> str) (now : datetime)
    (minus_days : datetime -> Z -> outcome datetime)
    (papers : list paper) (months : Z) (args_keywords : option (list str))
    (top_n : Z) (cutoff_date : datetime) :
  minus_days now (months * 30)%Z = Ok cutoff_date ->
  exists top rest,
    select_top_papers lower now minus_days papers months args_keywords top_n
    = Ok top
    /\ Permutation (top ++ rest)
         (filter (passes_filters lower cutoff_date
                    (effective_keywords args_keywords)) papers)
    /\ (forall p, In p top ->
          abstract p <> []
          /\ exists d, published_date p = Some d /\ (cutoff_date <= d)%Z)
    /\ (forall p q, In p top -> In q rest ->
          exists dp dq,
            published_date p = Some dp /\ published_date q = Some dq
            /\ (cutoff_date <= dq <= dp)%Z).
Proof.
  intro Hcut. unfold select_top_papers.
  pose proof (relevant_papers lower now minus_days papers months
                (effective_keywords args_keywords) cutoff_date
                (effective_keywords_nonempty _) Hcut) as Hrel.
  destruct (filter_by_months paper published_date now minus_days papers months)
    as [recent|e]; [|discriminate].
  rewrite bind_ok in *. injection Hrel as Hrel. rewrite Hrel.
  set (relevant := filter _ papers) in *.
  destruct (sort_by_newest_spec paper published_date relevant)
    as (Hperm & Hsorted & _).
  set (sorted := sort_by_newest paper published_date relevant) in *.
  destruct (slice_to_firstn top_n sorted) as [k Hk].
  exists (slice_to top_n sorted), (skipn k sorted).
  split; [reflexivity|]. rewrite Hk.
  assert (Hpass : forall p, In p sorted ->
            abstract p <> []
            /\ exists d, published_date p = Some d /\ (cutoff_date <= d)%Z).
  { intros p Hp. apply (Permutation_in _ (Permutation_sym Hperm)) in Hp.
    apply filter_In in Hp as [_ Hp]. unfold passes_filters in Hp.
    apply andb_true_iff in Hp as [Hdate Hmatch].
    unfold published_since in Hdate. unfold matches_keywords in Hmatch.
    split.
    - destruct (abstract p); [discriminate | discriminate].
    - destruct (published_date p) as [d|]; [|discriminate].
      exists d. split; [reflexivity | now apply Z.leb_le]. }
  split; [now rewrite firstn_skipn, <- Hperm|].
  split.
  - intros p Hp. apply Hpass. eapply in_firstn; eauto.
  - intros p q Hp Hq.
    assert (Hp' : In p sorted) by (eapply in_firstn; eauto).
    assert (Hq' : In q sorted).
    { rewrite <- (firstn_skipn k sorted). apply in_or_app. now right. }
    destruct (Hpass p Hp') as (_ & dp & Edp & _).
    destruct (Hpass q Hq') as (_ & dq & Edq & Hdq).
    exists dp, dq. repeat split; try assumption.
    rewrite <- (firstn_skipn k sorted) in Hsorted.
    pose proof (sorted_split _ _ _ Hsorted p q Hp Hq) as Hle.
    unfold get_date in Hle. now rewrite Edp, Edq in Hle.
Qed.

Lemma select_top_papers_newest_witness :
  let minus_days := fun (d : datetime) (n : Z) =>
                      @Ok datetime (d - n * MICROSECONDS_PER_DAY)%Z in
  let now := (100 * MICROSECONDS_PER_DAY)%Z in
  let cutoff_date := (70 * MICROSECONDS_PER_DAY)%Z in
  let wind := mkPaper (lit "W") (lit "wind power") []
                      (Some (80 * MICROSECONDS_PER_DAY)%Z) None in
  let solar := mkPaper (lit "S") (lit "solar cells") []
                       (Some (90 * MICROSECONDS_PER_DAY)%Z) None in
  let poetry := mkPaper (lit "P") (lit "sonnets") []
                        (Some (95 * MICROSECONDS_PER_DAY)%Z) None in
  let stale := mkPaper (lit "O") (lit "wind") []
                       (Some (10 * MICROSECONDS_PER_DAY)%Z) None in
  minus_days now (1 * 30)%Z = Ok cutoff_date
  /\ select_top_papers (fun s => s) now minus_days
       [wind; solar; poetry; stale] 1 None 1
     = Ok [solar]
  /\ exists top rest,
       select_top_papers (fun s => s) now minus_days
         [wind; solar; poetry; stale] 1 None 1 = Ok top
       /\ Permutation (top ++ rest)
            (filter (passes_filters (fun s => s) cutoff_date
                       (effective_keywords None))
                    [wind; solar; poetry; stale])
       /\ (forall p, In p top ->
             abstract p <> []
             /\ exists d, published_date p = Some d /\ (cutoff_date <= d)%Z)
       /\ (forall p q, In p top -> In q rest ->
             exists dp dq,
               published_date p = Some dp /\ published_date q = Some dq
               /\ (cutoff_date <= dq <= dp)%Z).
Proof.
  split; [reflexivity|]. split; [vm_compute; reflexivity|].
  exact (select_top_papers_newest (fun s => s)
           (100 * MICROSECONDS_PER_DAY)%Z
           (fun d n => Ok (d - n * MICROSECONDS_PER_DAY)%Z)
           [mkPaper (lit "W") (lit "wind power") []
                    (Some (80 * MICROSECONDS_PER_DAY)%Z) None;
            mkPaper (lit "S") (lit "solar cells") []
                    (Some (90 * MICROSECONDS_PER_DAY)%Z) None;
            mkPaper (lit "P") (lit "sonnets") []
                    (Some (95 * MICROSECONDS_PER_DAY)%Z) None;
            mkPaper (lit "O") (lit "wind") []
                    (Some (10 * MICROSECONDS_PER_DAY)%Z) None]
           1%Z None 1%Z (70 * MICROSECONDS_PER_DAY)%Z eq_refl).
Defined.

(* ------------------------------------------------------------------ *)
(** * More on entries, filters and lines *)
(* ------------------------------------------------------------------ *)

Lemma find_pdf_link_first (before after : list feed_link) (link : feed_link) :
  forallb (fun l => negb (is_pdf_link l)) before = true ->
  is_pdf_link link = true ->
  find_pdf_link (before ++ link :: after) = link_href link.
Proof.
  unfold is_pdf_link. intros Hbefore Hlink.
  induction before as [|l before IH]; cbn [app find_pdf_link].
  - destruct (link_type link) as [t|]; [|discriminate]. now rewrite Hlink.
  - cbn [forallb] in Hbefore. apply andb_true_iff in Hbefore as [Hl Hrest].
    apply negb_true_iff in Hl.
    destruct (link_type l) as [t|]; [rewrite Hl|]; now apply IH.
Qed.

(** X18.  The PDF link of a parsed paper is the [href] of the first link of
    type [application/pdf], later links being ignored; when that link has no
    [href] the paper has no PDF link, even if a later PDF link has one. *)
Theorem first_pdf_link_wins (entry : feed_entry) (p : paper)
    (before after : list feed_link) (link : feed_link) :
  parse_entry entry = Some p ->
  entry_links entry = before ++ link :: after ->
  forallb (fun l => negb (is_pdf_link l)) before = true ->
  is_pdf_link link = true ->
  pdf_link p = link_href link.
Proof.
  intros Hparse Hlinks Hbefore Hlink.
  rewrite <- (find_pdf_link_first before after link Hbefore Hlink), <- Hlinks.
  unfold parse_entry in Hparse.
  destruct (entry_published entry); inversion Hparse; reflexivity.
Qed.

Lemma first_pdf_link_wins_witness :
  let html := mkLink (Some (lit "text/html")) (Some (lit "http://a/abs")) in
  let broken := mkLink (Some (lit "application/pdf")) None in
  let pdf := mkLink (Some (lit "application/pdf")) (Some (lit "http://a/pdf")) in
  let entry := mkEntry None None [] Published_falsy [html; broken; pdf] in
  parse_entry entry = Some (mkPaper [] [] [] None None)
  /\ entry_links entry = [html] ++ broken :: [pdf]
  /\ forallb (fun l => negb (is_pdf_link l)) [html] = true
  /\ is_pdf_link broken = true
  /\ pdf_link (mkPaper [] [] [] None None) = link_href broken.
Proof.
  repeat (split; [reflexivity|]).
  exact (first_pdf_link_wins
           (mkEntry None None [] Published_falsy
              [mkLink (Some (lit "text/html")) (Some (lit "http://a/abs"));
               mkLink (Some (lit "application/pdf")) None;
               mkLink (Some (lit "application/pdf")) (Some (lit "http://a/pdf"))])
           (mkPaper [] [] [] None None)
           [mkLink (Some (lit "text/html")) (Some (lit "http://a/abs"))]
           [mkLink (Some (lit "application/pdf")) (Some (lit "http://a/pdf"))]
           (mkLink (Some (lit "application/pdf")) None)
           eq_refl eq_refl eq_refl eq_refl).
Defined.

Lemma filter_swap {A : Type} (f g : A -> bool) (l : list A) :
  filter f (filter g l) = filter g (filter f l).
Proof.
  rewrite !filter_filter. apply filter_ext. intro x. apply andb_comm.
Qed.

(** X19.  The two filters commute: when the cutoff can be computed,
    filtering by months and then by keywords returns the same papers as
    filtering by keywords and then by months. *)
Theorem filters_commute (dict : Type)
    (get_published_date : dict -> option datetime)
    (get_abstract : dict -> option str) (lower : str -> str)
    (now : datetime) (minus_days : datetime -> Z -> outcome datetime)
    (papers : list dict) (months : Z) (keywords : list str)
    (case_sensitive : bool) (cutoff_date : datetime) :
  minus_days now (months * 30)%Z = Ok cutoff_date ->
  filter_by_months dict get_published_date now minus_days
    (filter_by_abstract_keywords dict get_abstract lower
       papers keywords case_sensitive) months
  = (recent <- filter_by_months dict get_published_date now minus_days
                 papers months ;;
     Ok (filter_by_abstract_keywords dict get_abstract lower
           recent keywords case_sensitive)).
Proof.
  intro Hcut.
  assert (Hmonths : forall l,
            filter_by_months dict get_published_date now minus_days l months
            = Ok (filter (published_since dict get_published_date cutoff_date)
                         l)).
  { intro l. unfold filter_by_months.
    destruct l as [|x l]; [reflexivity|]. cbn [truthy negb].
    now rewrite Hcut, bind_ok. }
  rewrite !Hmonths, bind_ok. f_equal.
  unfold filter_by_abstract_keywords.
  destruct (truthy keywords); cbn [negb];
    [|now rewrite !orb_true_r].
  rewrite !orb_false_r.
  destruct papers as [|p0 papers]; [reflexivity|]. cbn [truthy negb].
  destruct (truthy (filter _ (p0 :: papers))) eqn:E; cbn [negb].
  - apply filter_swap.
  - apply truthy_false in E. rewrite filter_swap, E. reflexivity.
Qed.

Lemma filters_commute_witness :
  let minus_days := fun (d : datetime) (n : Z) =>
                      @Ok datetime (d - n * MICROSECONDS_PER_DAY)%Z in
  let now := (100 * MICROSECONDS_PER_DAY)%Z in
  let papers :=
    [mkPaper (lit "W") (lit "wind power") []
             (Some (80 * MICROSECONDS_PER_DAY)%Z) None;
     mkPaper (lit "O") (lit "wind") []
             (Some (10 * MICROSECONDS_PER_DAY)%Z) None;
     mkPaper (lit "S") (lit "sonnets") []
             (Some (90 * MICROSECONDS_PER_DAY)%Z) None] in
  minus_days now (1 * 30)%Z = Ok (70 * MICROSECONDS_PER_DAY)%Z
  /\ filter_by_months paper published_date now minus_days
       (filter_by_abstract_keywords paper (fun p => Some (abstract p))
          (fun s => s) papers [lit "wind"] true) 1
     = (recent <- filter_by_months paper published_date now minus_days
                    papers 1 ;;
        Ok (filter_by_abstract_keywords paper (fun p => Some (abstract p))
              (fun s => s) recent [lit "wind"] true)).
Proof.
  split; [reflexivity|].
  exact (filters_commute paper published_date (fun p => Some (abstract p))
           (fun s => s) (100 * MICROSECONDS_PER_DAY)%Z
           (fun d n => Ok (d - n * MICROSECONDS_PER_DAY)%Z)
           [mkPaper (lit "W") (lit "wind power") []
                    (Some (80 * MICROSECONDS_PER_DAY)%Z) None;
            mkPaper (lit "O") (lit "wind") []
                    (Some (10 * MICROSECONDS_PER_DAY)%Z) None;
            mkPaper (lit "S") (lit "sonnets") []
                    (Some (90 * MICROSECONDS_PER_DAY)%Z) None]
           1%Z [lit "wind"] true (70 * MICROSECONDS_PER_DAY)%Z eq_refl).
Defined.

Lemma loop_body_strip (st : pstate) (line : str) :
  loop_body st (strip line) = loop_body st line.
Proof. unfold loop_body. now rewrite strip_idempotent. Qed.

Lemma scan_strip (lines : list str) :
  forall st, scan st (map strip lines) = scan st lines.
Proof.
  induction lines as [|line rest IH]; intro st; [reflexivity|].
  cbn [map scan]. rewrite loop_body_strip.
  destruct (loop_body st line); cbn [bind]; auto.
Qed.

(** X20.  Indentation and trailing whitespace of lines do not matter once
    the summary section is filled: when the scan of some lines leaves a
    non-empty summary, the text of those lines and the text of the same
    lines trimmed parse to the same record. *)
Theorem line_whitespace_ignored (lines : list str) (st : pstate) :
  newline_free lines = true ->
  scan initial_state lines = Ok st ->
  insight_summary (save_final_section st) <> [] ->
  _parse_structured_output (unlines lines) = Ok (save_final_section st)
  /\ _parse_structured_output (unlines (map strip lines))
     = Ok (save_final_section st).
Proof.
  intros Hlf Hscan Hsum. apply newline_free_spec in Hlf.
  assert (Hne : lines <> []).
  { intros ->. injection Hscan as <-. now apply Hsum. }
  destruct (fallback_summary_unused (unlines lines) _ Hsum) as [F1 E1].
  destruct (fallback_summary_unused (unlines (map strip lines)) _ Hsum)
    as [F2 _].
  split.
  - rewrite parse_of_lines by assumption.
    now rewrite Hscan, bind_ok, F1, bind_ok, E1.
  - rewrite parse_of_lines.
    + now rewrite scan_strip, Hscan, bind_ok, F2, bind_ok, E1.
    + now destruct lines.
    + apply Forall_map. eapply Forall_impl; [|exact Hlf].
      intros line Hline. now apply mem_strip.
Qed.

Lemma line_whitespace_ignored_witness :
  let lines := [lit "   Insight Summary:"; lit "  Denser cells.  ";
                lit "  Key Innovations: "; lit "   * Dry coating "] in
  let st := mkState (mkInsight (lit "Denser cells.") [] [] [] [])
                    (Some S_key_innovations) [lit "Dry coating"] in
  newline_free lines = true
  /\ scan initial_state lines = Ok st
  /\ insight_summary (save_final_section st) <> []
  /\ _parse_structured_output (unlines (map strip lines))
     = Ok (mkInsight (lit "Denser cells.") [lit "Dry coating"] [] [] []).
Proof.
  assert (H : insight_summary
                (save_final_section
                   (mkState (mkInsight (lit "Denser cells.") [] [] [] [])
                            (Some S_key_innovations) [lit "Dry coating"]))
              <> []) by (vm_compute; discriminate).
  repeat (split; [first [reflexivity | exact H]|]).
  exact (proj2 (line_whitespace_ignored
                  [lit "   Insight Summary:"; lit "  Denser cells.  ";
                   lit "  Key Innovations: "; lit "   * Dry coating "]
                  (mkState (mkInsight (lit "Denser cells.") [] [] [] [])
                           (Some S_key_innovations) [lit "Dry coating"])
                  eq_refl eq_refl H)).
Defined.
